(** * agent-browse: session lifecycle and security gating (src/src/cli.ts)

    Shallow embedding of the CLI's blocklist (security module), port
    persistence, shutdown path and command dispatcher.  Strings are ASCII
    strings; JS exceptions are a small [exc] result; stateful code runs in a
    state-and-exception monad over a world holding the files the CLI touches,
    its module-level variables and a trace of the external operations it
    performed.  External collaborators (Stagehand, fetch, child processes,
    Math.random) are answered by an oracle over which every theorem
    quantifies. *)

From Stdlib Require Import String Ascii List ZArith Bool Lia QArith Qround.
Import ListNotations.
Open Scope nat_scope.
Open Scope string_scope.

(* ================================================================= *)
(** ** Character and string primitives (JS String.prototype methods) *)

Definition dq : string := String "034"%char EmptyString.

(** [\s] restricted to ASCII: TAB, LF, VT, FF, CR and SPACE. *)
Definition is_ws (c : ascii) : bool :=
  let n := nat_of_ascii c in (Nat.leb 9 n && Nat.leb n 13) || Nat.eqb n 32.

Definition lower_char (c : ascii) : ascii :=
  let n := nat_of_ascii c in
  if Nat.leb 65 n && Nat.leb n 90 then ascii_of_nat (n + 32) else c.

Definition lowerL (l : list ascii) : list ascii := map lower_char l.

(** [s.toLowerCase()] *)
Definition toLowerCase (s : string) : string :=
  string_of_list_ascii (lowerL (list_ascii_of_string s)).

Fixpoint prefixL (p s : list ascii) : bool :=
  match p, s with
  | [], _ => true
  | a :: p', b :: s' => Ascii.eqb a b && prefixL p' s'
  | _ :: _, [] => false
  end.

Fixpoint includesL (s sub : list ascii) : bool :=
  prefixL sub s || match s with [] => false | _ :: t => includesL t sub end.

(** [s.includes(sub)] *)
Definition includes (s sub : string) : bool :=
  includesL (list_ascii_of_string s) (list_ascii_of_string sub).

(** [s.endsWith(suf)] *)
Definition endsWith (s suf : string) : bool :=
  prefixL (rev (list_ascii_of_string suf)) (rev (list_ascii_of_string s)).

Fixpoint dropWhile (f : ascii -> bool) (l : list ascii) : list ascii :=
  match l with [] => [] | c :: t => if f c then dropWhile f t else l end.

Fixpoint takeWhile (f : ascii -> bool) (l : list ascii) : list ascii :=
  match l with [] => [] | c :: t => if f c then c :: takeWhile f t else [] end.

(** [s.trim()] *)
Definition trim (s : string) : string :=
  string_of_list_ascii
    (rev (dropWhile is_ws (rev (dropWhile is_ws (list_ascii_of_string s))))).

(** JS truthiness of a [string | null] value: null and the empty string are falsy. *)
Definition truthy (v : option string) : bool :=
  match v with Some s => negb (String.eqb s EmptyString) | None => false end.

(* ================================================================= *)
(** ** Exceptions *)

(** A thrown JS value: an [Error] with its message, or another value shown
    through [String(...)]. *)
Inductive jsval := JError (message : string) | JValue (shown : string).

(** [error instanceof Error ? error.message : String(error)] *)
Definition errMsg (e : jsval) : string :=
  match e with JError m => m | JValue s => s end.

Inductive exc (A : Type) := Ok (a : A) | Throw (e : jsval).
Arguments Ok {A} a.
Arguments Throw {A} e.

Definition exc_bind {A B} (m : exc A) (k : A -> exc B) : exc B :=
  match m with Ok a => k a | Throw e => Throw e end.

Definition exc_try {A} (m : exc A) (h : jsval -> exc A) : exc A :=
  match m with Ok a => Ok a | Throw e => h e end.

(* ================================================================= *)
(** ** The blocklist (security module) *)

(** [const BLOCKED_DOMAINS] *)
Definition BLOCKED_DOMAINS : list string :=
  [ (* Banking & Finance *)
    "chase.com"; "bankofamerica.com"; "wellsfargo.com"; "citi.com";
    "citibank.com"; "capitalone.com"; "usbank.com"; "pnc.com"; "schwab.com";
    "fidelity.com"; "vanguard.com"; "tdameritrade.com"; "etrade.com";
    "robinhood.com"; "coinbase.com"; "binance.com"; "kraken.com";
    "paypal.com"; "venmo.com"; "zelle.com"; "wise.com"; "mercury.com";
    "brex.com"; "stripe.com/dashboard";
    (* Email *)
    "mail.google.com"; "outlook.live.com"; "outlook.office.com";
    "mail.yahoo.com"; "proton.me"; "protonmail.com";
    (* Healthcare *)
    "mychart.com"; "mychartonline.com"; "portal.anthem.com"; "uhc.com";
    "cigna.com"; "aetna.com"; "kaiser.permanente.org";
    (* Sensitive accounts *)
    "irs.gov"; "ssa.gov"; "id.me"; "login.gov" ].

(** The fields of a WHATWG [URL] object the blocklist reads. *)
Record URL := mkURL { hostname : string; pathname : string }.

(** The [for (const domain of BLOCKED_DOMAINS)] loop of [getBlockedDomain]. *)
Fixpoint scan_blocked (host fullPath : string) (ds : list string)
  : option string :=
  match ds with
  | [] => None
  | domain :: ds' =>
      if includes domain "/" then
        if includes fullPath domain then Some domain
        else scan_blocked host fullPath ds'
      else if String.eqb host domain || endsWith host ("." ++ domain) then
        Some domain
      else scan_blocked host fullPath ds'
  end.

(** The [/\/+$/] and [/^https?:\/\//] normalisation of add/remove. *)
Definition strip_scheme (l : list ascii) : list ascii :=
  if prefixL (list_ascii_of_string "https://") l then skipn 8 l
  else if prefixL (list_ascii_of_string "http://") l then skipn 7 l
  else l.

Definition normalize_domain (domain : string) : string :=
  let l := strip_scheme (lowerL (list_ascii_of_string domain)) in
  string_of_list_ascii
    (rev (dropWhile (fun c => Ascii.eqb c "/"%char) (rev l))).

(** [addBlockedDomain]: appends the normalised entry unless present. *)
Definition addBlockedDomain (domain : string) (ds : list string) : list string :=
  let normalized := normalize_domain domain in
  if existsb (String.eqb normalized) ds then ds else ds ++ [normalized].

Section Blocklist.

(** [new URL(url)]: the platform URL parser; [None] is the TypeError it
    throws on malformed or relative input. *)
Context (parse : string -> option URL).

Definition new_URL (url : string) : exc URL :=
  match parse url with
  | Some u => Ok u
  | None => Throw (JError "Invalid URL")
  end.

(** [getBlockedDomain(url)] against the current contents of the blocklist. *)
Definition getBlockedDomain (blocked : list string) (url : string)
  : exc (option string) :=
  exc_try
    (exc_bind (new_URL url) (fun parsed =>
       let host := toLowerCase (hostname parsed) in
       let fullPath := host ++ pathname parsed in
       Ok (scan_blocked host fullPath blocked)))
    (fun _ => Ok None).

End Blocklist.

(* ================================================================= *)
(** ** The URL pattern of [actionReferencesBlockedDomain] and [action.match]

    The pattern is [https?://] (case-insensitive, global) followed by one or
    more characters that are neither white space, a double quote, a single
    quote, [<] nor [>]. *)

Definition url_char (c : ascii) : bool :=
  negb (is_ws c || Ascii.eqb c "034"%char || Ascii.eqb c "'"%char
        || Ascii.eqb c "<"%char || Ascii.eqb c ">"%char).

Definition ci (c x : ascii) : bool := Ascii.eqb (lower_char c) x.

(** Strips a leading [://]. *)
Definition colon_slashes (l : list ascii) : option (list ascii) :=
  match l with
  | c1 :: c2 :: c3 :: r =>
      if Ascii.eqb c1 ":" && Ascii.eqb c2 "/" && Ascii.eqb c3 "/"
      then Some r else None
  | _ => None
  end.

(** The character class run after [://], greedy: the length of the match. *)
Definition tail_run (r : list ascii) : option nat :=
  match length (takeWhile url_char r) with 0 => None | n => Some n end.

(** Length of a match of the pattern anchored at the head of [l]: [s?] is
    greedy, so the branch with [s] is tried before the one without. *)
Definition match_at (l : list ascii) : option nat :=
  match l with
  | h :: t1 :: t2 :: p :: rest =>
      if ci h "h" && ci t1 "t" && ci t2 "t" && ci p "p" then
        let with_s :=
          match rest with
          | s :: r =>
              if ci s "s" then
                match colon_slashes r with
                | Some r' => option_map (fun n => 8 + n) (tail_run r')
                | None => None
                end
              else None
          | [] => None
          end in
        match with_s with
        | Some n => Some n
        | None =>
            match colon_slashes rest with
            | Some r' => option_map (fun n => 7 + n) (tail_run r')
            | None => None
            end
        end
      else None
  | _ => None
  end.

(** Global matching: leftmost match, resume after it, else advance one
    character. *)
Fixpoint scan_urls (fuel : nat) (l : list ascii) : list (list ascii) :=
  match fuel with
  | O => []
  | S f =>
      match l with
      | [] => []
      | _ :: t =>
          match match_at l with
          | Some n => firstn n l :: scan_urls f (skipn n l)
          | None => scan_urls f t
          end
      end
  end.

(** The matches of [action.match(urlPattern)] ([[]] for [null]). *)
Definition url_matches (action : string) : list string :=
  let l := list_ascii_of_string action in
  map string_of_list_ascii (scan_urls (S (length l)) l).

Section ActionCheck.
Context (parse : string -> option URL).

Fixpoint first_blocked (blocked : list string) (urls : list string)
  : exc (option string) :=
  match urls with
  | [] => Ok None
  | url :: rest =>
      exc_bind (getBlockedDomain parse blocked url) (fun b =>
        if truthy b then Ok b else first_blocked blocked rest)
  end.

(** [actionReferencesBlockedDomain(action)] *)
Definition actionReferencesBlockedDomain (blocked : list string)
  (action : string) : exc (option string) :=
  match url_matches action with
  | [] => Ok None
  | urls => first_blocked blocked urls
  end.

End ActionCheck.

(* ================================================================= *)
(** ** A reduced model of the WHATWG URL parser, for concrete instances

    Accepts [http]/[https] URLs of the form [scheme://host[:port][/path]],
    with a non-empty host made of the characters before [/], [:], [?] or
    [#] (lowercased, as the parser does) and a pathname defaulting to [/];
    everything else (relative strings, free text) fails to parse. *)

Definition host_stop (c : ascii) : bool :=
  Ascii.eqb c "/" || Ascii.eqb c ":" || Ascii.eqb c "?" || Ascii.eqb c "#".

Definition path_stop (c : ascii) : bool := Ascii.eqb c "?" || Ascii.eqb c "#".

Definition url_lite (s : string) : option URL :=
  let l := list_ascii_of_string s in
  let rest :=
    if prefixL (list_ascii_of_string "https://") (lowerL l) then Some (skipn 8 l)
    else if prefixL (list_ascii_of_string "http://") (lowerL l) then Some (skipn 7 l)
    else None in
  match rest with
  | None => None
  | Some r =>
      let host := takeWhile (fun c => negb (host_stop c)) r in
      let after := dropWhile (fun c => negb (host_stop c)) r in
      let after_port := dropWhile (fun c => negb (Ascii.eqb c "/" || path_stop c)) after in
      let path := takeWhile (fun c => negb (path_stop c)) after_port in
      match host with
      | [] => None
      | _ => Some (mkURL (string_of_list_ascii (lowerL host))
                         (match path with
                          | [] => "/"
                          | _ => string_of_list_ascii path
                          end))
      end
  end.

(* ================================================================= *)
(** ** Decimal numbers: [String(n)] and [parseInt(s, 10)] *)

Definition is_digit (c : ascii) : bool :=
  let n := nat_of_ascii c in Nat.leb 48 n && Nat.leb n 57.

Definition digit_char (d : Z) : ascii := ascii_of_nat (48 + Z.to_nat d).

(** Decimal digits of [n >= 0], most significant first, in front of [acc]. *)
Fixpoint digitsZ (fuel : nat) (n : Z) (acc : list ascii) : list ascii :=
  match fuel with
  | O => acc
  | S f =>
      let acc' := digit_char (n mod 10) :: acc in
      if (n <? 10)%Z then acc' else digitsZ f (n / 10) acc'
  end.

(** [String(n)] for an integral number. *)
Definition String_of_Z (n : Z) : string :=
  let a := Z.abs n in
  let ds := digitsZ (S (Z.to_nat a)) a [] in
  string_of_list_ascii (if (n <? 0)%Z then "-"%char :: ds else ds).

Definition digit_value (c : ascii) : Z := (Z.of_nat (nat_of_ascii c) - 48)%Z.

Definition digits_value (ds : list ascii) : Z :=
  fold_left (fun acc c => acc * 10 + digit_value c)%Z ds 0%Z.

(** [parseInt(s, 10)]: leading white space, an optional sign, then the
    longest run of decimal digits; [None] is NaN (no digit).  Values are
    exact integers here, where JS would round beyond 2^53. *)
Definition parseInt (s : string) : option Z :=
  let l := dropWhile is_ws (list_ascii_of_string s) in
  let '(sign, rest) :=
    match l with
    | c :: r =>
        if Ascii.eqb c "-" then ((-1)%Z, r)
        else if Ascii.eqb c "+" then (1%Z, r) else (1%Z, l)
    | [] => (1%Z, l)
    end in
  match takeWhile is_digit rest with
  | [] => None
  | ds => Some (sign * digits_value ds)%Z
  end.

(* ================================================================= *)
(** ** The world: files, module-level variables, trace *)

(** The files under the plugin root the CLI reads or writes. *)
Inductive path := PortFile | PidFile | ProfileDir | DownloadsDir.

Definition path_eq_dec (p q : path) : {p = q} + {p <> q}.
Proof. decide equality. Defined.

(** A directory entry with the permissions that decide whether
    [readFileSync], [writeFileSync] and [unlinkSync] succeed on it. *)
Record file := mkFile
  { content : string; readable : bool; writable : bool; deletable : bool }.

Inductive ztype := ZString | ZNumber | ZBoolean.

(** External operations, recorded in the trace when performed. *)
Inductive op :=
  | OpPrepareProfile                      (* prepareChromeProfile(PLUGIN_ROOT) *)
  | OpInitBrowser                         (* initBrowser() *)
  | OpFirstPage                           (* stagehand.context.pages()[0] *)
  | OpGoto (url waitUntil : string) (timeoutMs : Z)
  | OpSleep (ms : Z)
  | OpTakeScreenshot
  | OpAct (action : string)
  | OpExtract (instruction : string) (schema : option (list (string * ztype)))
  | OpObserve (query : string)
  | OpStagehandClose                      (* stagehandInstance.close() *)
  | OpKill (signal : string)              (* chromeProcess.kill(signal) *)
  | OpExitCodeIsNull                      (* chromeProcess.exitCode === null *)
  | OpFetch (url : string) (timeoutMs : Z)
  | OpResponseJson                        (* (await response.json()).webSocketDebuggerUrl *)
  | OpNewStagehand (cdpUrl : string)
  | OpTempInit
  | OpTempClose
  | OpJsonParsePid (raw : string)         (* JSON.parse(raw).pid *)
  | OpImport (module : string)
  | OpExec (command : string)
  | OpProcessKill (pid signal : string)
  | OpRandom                              (* Math.random() *)
  | OpConsoleError (text : string).

Record world := mkWorld
  { fs : path -> option file;
    trace : list op;
    hasStagehand : bool;          (* stagehandInstance !== null *)
    hasChromeProcess : bool;      (* chromeProcess !== null *)
    weStartedChrome : bool;
    blocked : list string;        (* the BLOCKED_DOMAINS array *)
    cdpPort : Z }.                (* CDP_PORT *)

Definition set_fs (f : path -> option file) (w : world) : world :=
  mkWorld f (trace w) (hasStagehand w) (hasChromeProcess w)
    (weStartedChrome w) (blocked w) (cdpPort w).

Definition log_op (o : op) (w : world) : world :=
  mkWorld (fs w) (trace w ++ [o]) (hasStagehand w) (hasChromeProcess w)
    (weStartedChrome w) (blocked w) (cdpPort w).

Definition set_stagehand (b : bool) (w : world) : world :=
  mkWorld (fs w) (trace w) b (hasChromeProcess w)
    (weStartedChrome w) (blocked w) (cdpPort w).

Definition set_chrome (proc started : bool) (w : world) : world :=
  mkWorld (fs w) (trace w) (hasStagehand w) proc started (blocked w) (cdpPort w).

Definition update_fs (p : path) (v : option file) (f : path -> option file)
  : path -> option file :=
  fun q => if path_eq_dec p q then v else f q.

(** How the collaborators answer: [o_unit] gives the rejection of an
    operation without a result ([None]: it completed), [o_bool] and [o_str]
    the outcome of one with a result; each sees the world after the
    operation was recorded, hence the whole history. *)
Record oracle := mkOracle
  { o_unit : op -> world -> option jsval;
    o_bool : op -> world -> exc bool;
    o_str : op -> world -> exc string;
    o_random : world -> {q : Q | (0 <= q /\ q < 1)%Q} }.

(* ================================================================= *)
(** ** The state and exception monad *)

Definition M (A : Type) : Type := world -> exc A * world.

Definition ret {A} (a : A) : M A := fun w => (Ok a, w).

Definition bind {A B} (m : M A) (k : A -> M B) : M B :=
  fun w => match m w with
           | (Ok a, w') => k a w'
           | (Throw e, w') => (Throw e, w')
           end.

Notation "x <- c1 ;; c2" := (bind c1 (fun x => c2))
  (at level 61, c1 at next level, right associativity).
Notation "e1 ;; e2" := (bind e1 (fun _ => e2))
  (at level 61, right associativity).

Definition throw {A} (e : jsval) : M A := fun w => (Throw e, w).

Definition lift_exc {A} (m : exc A) : M A := fun w => (m, w).

(** [try { m } catch (e) { h(e) }] *)
Definition try_ {A} (m : M A) (h : jsval -> M A) : M A :=
  fun w => match m w with
           | (Ok a, w') => (Ok a, w')
           | (Throw e, w') => h e w'
           end.

(** [try { m } finally { fin }]: a throw of [fin] replaces [m]'s outcome. *)
Definition finally_ {A} (m : M A) (fin : M unit) : M A :=
  fun w => let '(r, w1) := m w in
           let '(r2, w2) := fin w1 in
           (match r2 with Ok _ => r | Throw e => Throw e end, w2).

Definition gets {A} (f : world -> A) : M A := fun w => (Ok (f w), w).
Definition modify (f : world -> world) : M unit := fun w => (Ok tt, f w).
Definition emit (o : op) : M unit := modify (log_op o).

(** [existsSync] never throws. *)
Definition existsSync (p : path) : M bool :=
  gets (fun w => match fs w p with Some _ => true | None => false end).

Definition ENOENT : jsval := JError "ENOENT: no such file or directory".
Definition EACCES : jsval := JError "EACCES: permission denied".

Definition readFileSync (p : path) : M string :=
  fun w => match fs w p with
           | Some f => if readable f then (Ok (content f), w) else (Throw EACCES, w)
           | None => (Throw ENOENT, w)
           end.

Definition writeFileSync (p : path) (s : string) : M unit :=
  fun w => match fs w p with
           | Some f =>
               if writable f then
                 (Ok tt, set_fs (update_fs p (Some (mkFile s (readable f)
                                      (writable f) (deletable f))) (fs w)) w)
               else (Throw EACCES, w)
           (* Modelling assumption: creating a missing file (the only files
              written are [.cdp-port] and [.chrome-pid] in the plugin root)
              succeeds, i.e. the plugin root is writable.  Statements that
              depend on this branch are about that setting. *)
           | None => (Ok tt, set_fs (update_fs p (Some (mkFile s true true true)) (fs w)) w)
           end.

Definition unlinkSync (p : path) : M unit :=
  fun w => match fs w p with
           | Some f =>
               if deletable f then (Ok tt, set_fs (update_fs p None (fs w)) w)
               else (Throw (JError "EPERM: operation not permitted"), w)
           | None => (Throw ENOENT, w)
           end.

(** [if (existsSync(p)) { try { unlinkSync(p); } catch {} }] *)
Definition unlink_if_exists (p : path) : M unit :=
  ex <- existsSync p ;;
  if ex then try_ (unlinkSync p) (fun _ => ret tt) else ret tt.

(* ================================================================= *)
(** ** The CLI (cli.ts) *)

Record result := mkResult
  { success : bool; message : option string; error : option string;
    screenshot : option string }.

Definition failure (msg : string) : result := mkResult false None (Some msg) None.

Definition closed_result : result :=
  mkResult true (Some "Browser closed (profile preserved)") None None.

Inductive output := Stdout (r : result) | Stderr (r : result).

Definition ztype_of (type : string) : option ztype :=
  if String.eqb type "string" then Some ZString
  else if String.eqb type "number" then Some ZNumber
  else if String.eqb type "boolean" then Some ZBoolean
  else None.

(** [obj[key] = v] on a plain object: an existing key keeps its place. *)
Fixpoint obj_set {V} (key : string) (v : V) (o : list (string * V))
  : list (string * V) :=
  match o with
  | [] => [(key, v)]
  | (k, v') :: o' =>
      if String.eqb key k then (key, v) :: o' else (k, v') :: obj_set key v o'
  end.

(** The [for (const [key, type] of Object.entries(schema))] loop. *)
Fixpoint build_fields (entries : list (string * string))
  (zodSchema : list (string * ztype)) (hasValidTypes : bool)
  : list (string * ztype) * bool :=
  match entries with
  | [] => (zodSchema, hasValidTypes)
  | (key, type) :: rest =>
      match ztype_of type with
      | Some z => build_fields rest (obj_set key z zodSchema) hasValidTypes
      | None => build_fields rest zodSchema false
      end
  end.

(** The schema [extract] passes to [stagehand.extract]: [None] when
    [schema] is absent (falsy) or when the guard
    [hasValidTypes && Object.keys(zodSchema).length > 0] fails. *)
Definition build_schema (schema : option (list (string * string)))
  : option (list (string * ztype)) :=
  match schema with
  | None => None
  | Some entries =>
      let '(zodSchema, hasValidTypes) := build_fields entries [] true in
      if hasValidTypes && negb (Nat.eqb (length zodSchema) 0)
      then Some zodSchema else None
  end.

Definition blocked_nav_msg (d : string) : string :=
  "BLOCKED: Navigation to " ++ dq ++ d ++ dq ++ " is restricted by security policy.".

Definition blocked_act_msg (d : string) : string :=
  "BLOCKED: Action references restricted domain " ++ dq ++ d ++ dq ++ ".".

Definition opt_str (v : option string) : string :=
  match v with Some s => s | None => "null" end.

Definition nl : string := String "010"%char EmptyString.

Definition unknown_command_msg (command : string) : string :=
  "Unknown command: " ++ command ++ nl
  ++ "Available: navigate, act, extract, observe, screenshot, close".

Definition version_url (port : Z) : string :=
  "http://127.0.0.1:" ++ String_of_Z port ++ "/json/version".

Section Runtime.

Context (parse : string -> option URL).
(** [JSON.parse(args[2])] as the [Record<string, string>] [extract] takes;
    [None] is a falsy value.  Non-string field values are shown as strings,
    which none of the three type names equals. *)
Context (schema_of_json : string -> exc (option (list (string * string)))).
Context (O : oracle).

Definition callU (o : op) : M unit :=
  fun w => let w' := log_op o w in
           (match o_unit O o w' with None => Ok tt | Some e => Throw e end, w').

Definition callB (o : op) : M bool :=
  fun w => let w' := log_op o w in (o_bool O o w', w').

Definition callS (o : op) : M string :=
  fun w => let w' := log_op o w in (o_str O o w', w').

(** [getRandomCdpPort()]: [Math.floor(Math.random() * 55000) + 10000]. *)
Definition getRandomCdpPort : M Z :=
  fun w => let w' := log_op OpRandom w in
           (Ok (Qfloor (proj1_sig (o_random O w') * (55000 # 1)) + 10000)%Z, w').

(** [if (saved > 0) return saved;] with NaN compared false. *)
Definition positive_port (saved : option Z) : option Z :=
  match saved with Some n => if (0 <? n)%Z then Some n else None | None => None end.

(** [getCdpPort()] *)
Definition getCdpPort : M Z :=
  ex <- existsSync PortFile ;;
  saved <- (if ex then
              try_ (raw <- readFileSync PortFile ;;
                    ret (positive_port (parseInt (trim raw))))
                   (fun _ => ret None)
            else ret None) ;;
  match saved with
  | Some n => ret n
  | None =>
      port <- getRandomCdpPort ;;
      writeFileSync PortFile (String_of_Z port) ;;
      ret port
  end.

Definition logError (prefix : string) (e : jsval) : M unit :=
  emit (OpConsoleError (prefix ++ " " ++ errMsg e)).

(** The [Force kill via PID if still running] block. *)
Definition kill_by_pid (cdp : Z) : M unit :=
  _ <- callB (OpFetch (version_url cdp) 1000) ;;
  ex <- existsSync PidFile ;;
  if ex then
    raw <- readFileSync PidFile ;;
    pid <- callS (OpJsonParsePid raw) ;;
    try_ (callU (OpImport "child_process") ;;
          callU (OpImport "util") ;;
          stdout <- callS (OpExec ("ps -p " ++ pid ++ " -o comm=")) ;;
          if includes (toLowerCase (trim stdout)) "chrome"
          then callU (OpProcessKill pid "SIGKILL") else ret tt)
         (fun _ => ret tt)
  else ret tt.

(** The [For separate CLI invocations, try graceful CDP shutdown] block. *)
Definition cdp_shutdown (cdp : Z) : M unit :=
  ok <- callB (OpFetch (version_url cdp) 2000) ;;
  if ok then
    wsUrl <- callS OpResponseJson ;;
    callU (OpNewStagehand wsUrl) ;;
    callU OpTempInit ;;
    callU OpTempClose ;;
    callU (OpSleep 2000) ;;
    try_ (kill_by_pid cdp) (fun _ => ret tt)
  else ret tt.

(** [closeBrowser()] *)
Definition closeBrowser : M unit :=
  cdp <- gets cdpPort ;;
  sh <- gets hasStagehand ;;
  (if sh then
     try_ (callU OpStagehandClose) (logError "Error closing Stagehand:") ;;
     modify (set_stagehand false)
   else ret tt) ;;
  cp <- gets hasChromeProcess ;;
  st <- gets weStartedChrome ;;
  (if cp && st then
     try_ (callU (OpKill "SIGTERM") ;;
           callU (OpSleep 1000) ;;
           alive <- callB OpExitCodeIsNull ;;
           if alive then callU (OpKill "SIGKILL") else ret tt)
          (logError "Error killing Chrome:") ;;
     modify (set_chrome false false)
   else ret tt) ;;
  finally_ (try_ (cdp_shutdown cdp) (fun _ => ret tt))
           (unlink_if_exists PidFile).

(** [} catch (error) { return { success: false, error: ... } }] *)
Definition catch_result (m : M result) : M result :=
  try_ m (fun e => ret (failure (errMsg e))).

(** [initBrowser()] (cli.ts lines 58-170): attaching to or launching
    Chrome, entirely CDP probes, process spawn and Stagehand calls, is one
    external step [OpInitBrowser] here. *)
Definition initBrowser : M unit := callU OpInitBrowser.

Definition takeScreenshot : M string := callS OpTakeScreenshot.

(** [navigate(url)] *)
Definition navigate (url : string) : M result :=
  bl <- gets blocked ;;
  blockedDomain <- lift_exc (getBlockedDomain parse bl url) ;;
  if truthy blockedDomain then
    ret (failure (blocked_nav_msg (opt_str blockedDomain)))
  else
    catch_result
      (initBrowser ;;
       callU OpFirstPage ;;
       try_ (callU (OpGoto url "networkidle" 30000))
            (fun _ => callU (OpGoto url "domcontentloaded" 15000)) ;;
       callU (OpSleep 3000) ;;
       shot <- takeScreenshot ;;
       ret (mkResult true (Some ("Successfully navigated to " ++ url)) None
                     (Some shot))).

(** [act(action)] *)
Definition act (action : string) : M result :=
  bl <- gets blocked ;;
  blockedDomain <- lift_exc (actionReferencesBlockedDomain parse bl action) ;;
  if truthy blockedDomain then
    ret (failure (blocked_act_msg (opt_str blockedDomain)))
  else
    catch_result
      (initBrowser ;;
       callU (OpAct action) ;;
       shot <- takeScreenshot ;;
       ret (mkResult true (Some ("Successfully performed action: " ++ action))
                     None (Some shot))).

(** [extract(instruction, schema)] *)
Definition extract (instruction : string)
  (schema : option (list (string * string))) : M result :=
  catch_result
    (initBrowser ;;
     r <- callS (OpExtract instruction (build_schema schema)) ;;
     shot <- takeScreenshot ;;
     ret (mkResult true (Some ("Successfully extracted data: " ++ r)) None
                   (Some shot))).

(** [observe(query)] *)
Definition observe (query : string) : M result :=
  catch_result
    (initBrowser ;;
     actions <- callS (OpObserve query) ;;
     shot <- takeScreenshot ;;
     ret (mkResult true (Some ("Successfully observed: " ++ actions)) None
                   (Some shot))).

(** [screenshot()] *)
Definition screenshot_cmd : M result :=
  catch_result (initBrowser ;; shot <- takeScreenshot ;;
                ret (mkResult true None None (Some shot))).

(** The [case 'close'] branch of [main]. *)
Definition close_command : M result :=
  closeBrowser ;;
  unlink_if_exists PortFile ;;
  ret closed_result.

Definition usage {A} (msg : string) : M A := throw (JError msg).

(** The [switch (command)] of [main]. *)
Definition dispatch (args : list string) : M result :=
  match args with
  | [] => throw (JError (unknown_command_msg "undefined"))
  | command :: rest =>
      if String.eqb command "navigate" then
        match rest with
        | url :: _ => navigate url
        | [] => usage "Usage: browser navigate <url>"
        end
      else if String.eqb command "act" then
        match rest with
        | [] => usage ("Usage: browser act " ++ dq ++ "<action>" ++ dq)
        | _ => act (String.concat " " rest)
        end
      else if String.eqb command "extract" then
        match rest with
        | [] => usage ("Usage: browser extract " ++ dq ++ "<instruction>" ++ dq)
        | instruction :: more =>
            schema <- (match more with
                       | s :: _ => if String.eqb s EmptyString then ret None
                                   else lift_exc (schema_of_json s)
                       | [] => ret None
                       end) ;;
            extract instruction schema
        end
      else if String.eqb command "observe" then
        match rest with
        | [] => usage ("Usage: browser observe " ++ dq ++ "<query>" ++ dq)
        | _ => observe (String.concat " " rest)
        end
      else if String.eqb command "screenshot" then screenshot_cmd
      else if String.eqb command "close" then close_command
      else throw (JError (unknown_command_msg command))
  end.

(** [main()] from [prepareChromeProfile] on: the exit code and the JSON
    object printed.  [prepareChromeProfile] (browser-utils, not part of
    this development) is the external step [OpPrepareProfile]. *)
Definition main (args : list string) : M (Z * output) :=
  callU OpPrepareProfile ;;
  try_ (r <- dispatch args ;; ret (0%Z, Stdout r))
       (fun e => closeBrowser ;; ret (1%Z, Stderr (failure (errMsg e)))).

End Runtime.

(* ================================================================= *)
(** ** Vocabulary for the statements *)

(** Whether one blocklist entry matches a URL: the test inside the loop of
    [getBlockedDomain]. *)
Definition entry_matches (host fullPath domain : string) : bool :=
  if includes domain "/" then includes fullPath domain
  else String.eqb host domain || endsWith host ("." ++ domain).

(** The fields of a flat schema whose type is one of the three names. *)
Definition recognized_fields (entries : list (string * string))
  : list (string * ztype) :=
  flat_map (fun kt => match ztype_of (snd kt) with
                      | Some z => [(fst kt, z)]
                      | None => []
                      end) entries.

(** A file after a best-effort deletion. *)
Definition removed_if_deletable (v : option file) : option file :=
  match v with
  | Some f => if deletable f then None else Some f
  | None => None
  end.

(** How a computation changes the files: [fs (snd (m w)) q = G (fs w) q]. *)
Definition fs_step {A} (m : M A) (G : (path -> option file) -> path -> option file)
  : Prop :=
  forall w q, fs (snd (m w)) q = G (fs w) q.

Definition no_throw {A} (m : M A) : Prop := forall w, exists a, fst (m w) = Ok a.

Definition unlinkG (p : path) (f : path -> option file) : path -> option file :=
  fun q => if path_eq_dec p q then removed_if_deletable (f q) else f q.

(** A transformer that looks at the files pointwise. *)
Definition fs_ext (G : (path -> option file) -> path -> option file) : Prop :=
  forall f f', (forall q, f q = f' q) -> forall q, G f q = G f' q.

(* ================================================================= *)
(** ** The rest of the security module and of the CLI *)

(** [BLOCKED_DOMAINS.indexOf(x)]: strict equality, [-1] when absent. *)
Fixpoint indexOf (x : string) (ds : list string) : Z :=
  match ds with
  | [] => (-1)%Z
  | d :: ds' =>
      if String.eqb d x then 0%Z
      else let i := indexOf x ds' in if Z.eqb i (-1) then (-1)%Z else (i + 1)%Z
  end.

(** [ds.splice(index, 1)]: the array without its element at [index]. *)
Definition splice1 (index : nat) (ds : list string) : list string :=
  (firstn index ds ++ skipn (S index) ds)%list.

(** [removeBlockedDomain(domain)]: the result and the new blocklist. *)
Definition removeBlockedDomain (domain : string) (ds : list string)
  : bool * list string :=
  let normalized := normalize_domain domain in
  let index := indexOf normalized ds in
  if negb (Z.eqb index (-1)) then (true, splice1 (Z.to_nat index) ds)
  else (false, ds).

(** [rmSync(p, { recursive: true, force: true })]: [force] makes a missing
    path no error; a tree that cannot be removed throws.  The recursive
    removal is not atomic: it may throw after deleting part of the tree, and
    [residue f] is what is left of [f] then ([None] when nothing is). *)
Definition rmSync (residue : file -> option file) (p : path) : M unit :=
  fun w => match fs w p with
           | Some f =>
               if deletable f then (Ok tt, set_fs (update_fs p None (fs w)) w)
               else (Throw (JError "EPERM: operation not permitted"),
                     set_fs (update_fs p (residue f) (fs w)) w)
           | None => (Ok tt, w)
           end.

(** [cleanupChromeProfile(profileDir)], with [rmSync]'s partial-removal
    [residue]. *)
Definition cleanupChromeProfile (residue : file -> option file) (profileDir : path)
  : M bool :=
  try_ (ex <- existsSync profileDir ;;
        if ex then rmSync residue profileDir ;; ret true else ret false)
       (fun error => logError "Warning: Failed to clean up chrome profile:" error ;;
                     ret false).

(** The [process.on('SIGINT')] and [process.on('SIGTERM')] handlers: the
    exit code passed to [process.exit]. *)
Definition on_signal (O : oracle) : M Z := closeBrowser O ;; ret 0%Z.

(** The three stages of [closeBrowser], as they appear in its body. *)
Definition close_stagehand_stage (O : oracle) (sh : bool) : M unit :=
  if sh then
    try_ (callU O OpStagehandClose) (logError "Error closing Stagehand:") ;;
    modify (set_stagehand false)
  else ret tt.

Definition close_chrome_stage (O : oracle) (cp st : bool) : M unit :=
  if cp && st then
    try_ (callU O (OpKill "SIGTERM") ;;
          callU O (OpSleep 1000) ;;
          alive <- callB O OpExitCodeIsNull ;;
          if alive then callU O (OpKill "SIGKILL") else ret tt)
         (logError "Error killing Chrome:") ;;
    modify (set_chrome false false)
  else ret tt.

Definition close_cdp_stage (O : oracle) (cdp : Z) : M unit :=
  finally_ (try_ (cdp_shutdown O cdp) (fun _ => ret tt)) (unlink_if_exists PidFile).

(** The module-level variables of the CLI. *)
Definition ctl (w : world) : bool * bool * bool * list string * Z :=
  (hasStagehand w, hasChromeProcess w, weStartedChrome w, blocked w, cdpPort w).

Definition keeps_ctl {A} (m : M A) : Prop := forall w, ctl (snd (m w)) = ctl w.

(** The operations a computation adds to the trace all satisfy [P]. *)
Definition ops_only {A} (P : op -> bool) (m : M A) : Prop :=
  forall w, exists t, trace (snd (m w)) = (trace w ++ t)%list /\ forallb P t = true.

(* ================================================================= *)
(** ** [initBrowser], step by step *)

(** The model above runs [initBrowser()] as the single external step
    [OpInitBrowser].  This module follows its body (cli.ts lines 58-170)
    statement by statement, with its own record of the external calls; the
    files and the module-level variables are those of [world]. *)
Module Launch.

(** External operations of [initBrowser], recorded when performed. *)
Inductive iop :=
  | IFindChrome                           (* findLocalChrome() *)
  | IFetch (url : string)                 (* (await fetch(url)).ok *)
  | ISpawn (chromePath : string) (args : list string)   (* spawn(...).pid *)
  | IDateNow                              (* Date.now() *)
  | ISleep (ms : Z)                       (* new Promise(setTimeout); never rejects *)
  | IVersionJson                          (* (await versionResponse.json()).webSocketDebuggerUrl *)
  | INewStagehand (cdpUrl : string)       (* new Stagehand({...}) *)
  | IStagehandInit                        (* stagehandInstance.init() *)
  | IFirstPage                            (* stagehandInstance.context.pages()[0] *)
  | ISend (method : string)               (* currentPage.mainFrame().session.send(method, ...) *)
  | IEvaluate (expr : string)             (* currentPage.evaluate(expr) *)
  | IMkdir (p : path)                     (* mkdirSync(p, { recursive: true }) *)
  | IConsoleError (text : string).

Record iworld := mkIWorld
  { base : world;                (* files, stagehandInstance, chromeProcess, ... *)
    itrace : list iop;
    hasCurrentPage : bool }.     (* currentPage !== null *)

Definition set_base (w : world) (iw : iworld) : iworld :=
  mkIWorld w (itrace iw) (hasCurrentPage iw).

Definition ilog (o : iop) (iw : iworld) : iworld :=
  mkIWorld (base iw) (itrace iw ++ [o]) (hasCurrentPage iw).

(** How the collaborators answer, as [oracle] does for the main model:
    each sees the world after the operation was recorded. *)
Record ioracle := mkIOracle
  { i_unit : iop -> iworld -> option jsval;
    i_bool : iop -> iworld -> exc bool;
    i_str : iop -> iworld -> exc string;
    i_chrome : iworld -> exc (option string);   (* findLocalChrome() *)
    i_pid : iworld -> exc (option Z);           (* spawn(...).pid, undefined as None *)
    i_now : iworld -> Z }.

Definition IM (A : Type) : Type := iworld -> exc A * iworld.

Definition iret {A} (a : A) : IM A := fun iw => (Ok a, iw).

Definition ibind {A B} (m : IM A) (k : A -> IM B) : IM B :=
  fun iw => match m iw with
            | (Ok a, iw') => k a iw'
            | (Throw e, iw') => (Throw e, iw')
            end.

#[warnings="-notation-overridden"]
Local Notation "x <- c1 ;; c2" := (ibind c1 (fun x => c2))
  (at level 61, c1 at next level, right associativity).
#[warnings="-notation-overridden"]
Local Notation "e1 ;; e2" := (ibind e1 (fun _ => e2))
  (at level 61, right associativity).

Definition ithrow {A} (e : jsval) : IM A := fun iw => (Throw e, iw).

Definition itry {A} (m : IM A) (h : jsval -> IM A) : IM A :=
  fun iw => match m iw with
            | (Ok a, iw') => (Ok a, iw')
            | (Throw e, iw') => h e iw'
            end.

Definition igets {A} (f : world -> A) : IM A := fun iw => (Ok (f (base iw)), iw).

Definition imodify (f : world -> world) : IM unit :=
  fun iw => (Ok tt, set_base (f (base iw)) iw).

Definition iemit (o : iop) : IM unit := fun iw => (Ok tt, ilog o iw).

(** A file-system call of the main model, on the files of [base]. *)
Definition on_base {A} (m : M A) : IM A :=
  fun iw => let '(r, w') := m (base iw) in (r, set_base w' iw).

(** [currentPage = ...] *)
Definition set_page : IM unit :=
  fun iw => (Ok tt, mkIWorld (base iw) (itrace iw) true).

(** A directory made by [mkdirSync]. *)
Definition new_dir : file := mkFile "" true true true.

Section WithOracle.

Context (OI : ioracle).
Context (plugin_root : string).     (* PLUGIN_ROOT *)

Definition icallU (o : iop) : IM unit :=
  fun iw => let iw' := ilog o iw in
            (match i_unit OI o iw' with None => Ok tt | Some e => Throw e end, iw').

Definition icallB (o : iop) : IM bool :=
  fun iw => let iw' := ilog o iw in (i_bool OI o iw', iw').

Definition icallS (o : iop) : IM string :=
  fun iw => let iw' := ilog o iw in (i_str OI o iw', iw').

Definition findLocalChrome : IM (option string) :=
  fun iw => let iw' := ilog IFindChrome iw in (i_chrome OI iw', iw').

Definition spawn_pid (chromePath : string) (args : list string) : IM (option Z) :=
  fun iw => let iw' := ilog (ISpawn chromePath args) iw in (i_pid OI iw', iw').

Definition date_now : IM Z :=
  fun iw => let iw' := ilog IDateNow iw in (Ok (i_now OI iw'), iw').

Definition sleep (ms : Z) : IM unit := iemit (ISleep ms).

Definition mkdirSync (p : path) : IM unit :=
  fun iw => let iw' := ilog (IMkdir p) iw in
            match i_unit OI (IMkdir p) iw' with
            | None => (Ok tt, set_base (set_fs (update_fs p (Some new_dir) (fs (base iw')))
                                               (base iw')) iw')
            | Some e => (Throw e, iw')
            end.

(** [join(PLUGIN_ROOT, '.chrome-profile')] *)
Definition persistentProfileDir : string := plugin_root ++ "/.chrome-profile".

Definition chrome_args (cdpPort : Z) : list string :=
  [("--remote-debugging-port=" ++ String_of_Z cdpPort);
   ("--user-data-dir=" ++ persistentProfileDir);
   "--window-position=0,0"; "--window-size=1920,1080"].

(** [JSON.stringify({ pid, startTime })] *)
Definition pid_json (pid startTime : Z) : string :=
  "{" ++ dq ++ "pid" ++ dq ++ ":" ++ String_of_Z pid ++ ","
  ++ dq ++ "startTime" ++ dq ++ ":" ++ String_of_Z startTime ++ "}".

(** [Check if Chrome is already running on the CDP port] *)
Definition probe_existing (cdpPort : Z) : IM bool :=
  itry (ok <- icallB (IFetch (version_url cdpPort)) ;;
        if ok then
          iemit (IConsoleError ("Reusing existing Chrome instance on port "
                                ++ String_of_Z cdpPort)) ;;
          iret true
        else iret false)
       (fun _ => iret false).

(** [for (let i = 0; i < 60; i++) { ... }], [n] iterations left. *)
Fixpoint wait_for_chrome (n : nat) (cdpPort : Z) : IM bool :=
  match n with
  | 0 => iret false
  | S n' =>
      ok <- itry (icallB (IFetch (version_url cdpPort))) (fun _ => iret false) ;;
      if ok then
        imodify (fun w => set_chrome (hasChromeProcess w) true w) ;;
        iret true
      else sleep 500 ;; wait_for_chrome n' cdpPort
  end.

(** [Launch Chrome if not already running] *)
Definition launch_chrome (chromePath : string) (cdpPort : Z) : IM unit :=
  pid <- spawn_pid chromePath (chrome_args cdpPort) ;;
  imodify (fun w => set_chrome true (weStartedChrome w) w) ;;
  (match pid with
   | Some n =>
       if Z.eqb n 0 then iret tt
       else startTime <- date_now ;;
            on_base (writeFileSync PidFile (pid_json n startTime))
   | None => iret tt
   end) ;;
  ready <- wait_for_chrome 60 cdpPort ;;
  if ready then iret tt else ithrow (JError "Chrome failed to start").

(** [while (retries < 30) { ... }], [n] tries left. *)
Fixpoint wait_page_ready (n : nat) : IM unit :=
  match n with
  | 0 => iret tt
  | S n' =>
      done <- itry (icallU (IEvaluate "document.readyState") ;; iret true)
                   (fun _ => sleep 100 ;; iret false) ;;
      if done then iret tt else wait_page_ready n'
  end.

(** From [Get the WebSocket URL] to the download configuration. *)
Definition connect_stagehand (cdpPort : Z) : IM unit :=
  _ <- icallB (IFetch (version_url cdpPort)) ;;
  wsUrl <- icallS IVersionJson ;;
  icallU (INewStagehand wsUrl) ;;
  imodify (set_stagehand true) ;;
  icallU IStagehandInit ;;
  icallU IFirstPage ;;
  set_page ;;
  icallU (ISend "Emulation.setDeviceMetricsOverride") ;;
  wait_page_ready 30 ;;
  ex <- on_base (existsSync DownloadsDir) ;;
  (if ex then iret tt else mkdirSync DownloadsDir) ;;
  icallU (ISend "Browser.setDownloadBehavior").

(** [initBrowser()] *)
Definition initBrowser : IM unit :=
  sh <- igets hasStagehand ;;
  if sh then iret tt
  else
    chromePath <- findLocalChrome ;;
    if negb (truthy chromePath) then ithrow (JError "Could not find Chrome installation")
    else
      cdpPort <- igets cdpPort ;;
      ready <- probe_existing cdpPort ;;
      (if ready then iret tt else launch_chrome (opt_str chromePath) cdpPort) ;;
      connect_stagehand cdpPort.

End WithOracle.

(** [R] relates the globals and files before a computation to those after. *)
Definition bpre {A} (R : world -> world -> Prop) (m : IM A) : Prop :=
  forall iw, R (base iw) (base (snd (m iw))).

(** The relations of the launch theorems: [stagehandInstance] kept; no
    file changed but the PID file and the downloads directory, and that
    one only created; [chromeProcess], [weStartedChrome] and the PID file
    kept. *)
Definition same_stagehand (w w' : world) : Prop := hasStagehand w' = hasStagehand w.

Definition dl_grows (v v' : option file) : Prop :=
  v' = v \/ (v = None /\ v' = Some new_dir).

Definition launch_files (w w' : world) : Prop :=
  (forall q, q <> PidFile -> q <> DownloadsDir -> fs w' q = fs w q) /\
  dl_grows (fs w DownloadsDir) (fs w' DownloadsDir).

Definition same_chrome (w w' : world) : Prop :=
  hasChromeProcess w' = hasChromeProcess w /\ weStartedChrome w' = weStartedChrome w /\
  fs w' PidFile = fs w PidFile.

(** The operations a computation adds to the record all satisfy [P]. *)
Definition iops_only {A} (P : iop -> bool) (m : IM A) : Prop :=
  forall iw, exists t, itrace (snd (m iw)) = (itrace iw ++ t)%list /\ forallb P t = true.

Definition is_spawn (o : iop) : bool :=
  match o with ISpawn _ _ => true | _ => false end.

(** [n] failed waits for Chrome: a probe, then half a second. *)
Fixpoint failed_probes (n : nat) (url : string) : list iop :=
  match n with 0 => [] | S n' => IFetch url :: ISleep 500 :: failed_probes n' url end.

End Launch.

(* ================================================================= *)
(** ** Concrete collaborators for the instances *)

Definition random_at (q : Q) (H : (0 <= q /\ q < 1)%Q)
  : world -> {q : Q | (0 <= q /\ q < 1)%Q} := fun _ => exist _ q H.

Definition zero_in_unit : (0 <= 0 /\ 0 < 1)%Q.
Proof. split; [discriminate | reflexivity]. Defined.

Definition half_in_unit : (0 <= 1 # 2 /\ 1 # 2 < 1)%Q.
Proof. split; [discriminate | reflexivity]. Defined.

(** Every collaborator succeeds; the CDP probe answers [ok]; [Math.random]
    returns [q]. *)
Definition quiet_oracle (q : Q) (H : (0 <= q /\ q < 1)%Q) : oracle :=
  mkOracle (fun _ _ => None) (fun _ _ => Ok true) (fun _ _ => Ok "out")
           (random_at q H).

Definition oracle0 : oracle := quiet_oracle 0 zero_in_unit.
Definition oracle_half : oracle := quiet_oracle (1 # 2) half_in_unit.

(** [JSON.parse] is not exercised by the instances. *)
Definition no_json (_ : string) : exc (option (list (string * string))) :=
  Ok None.

Definition profile_dir : file := mkFile "profile" true true true.

(** A first run: only the persistent profile exists. *)
Definition fresh_fs : path -> option file :=
  fun p => match p with ProfileDir => Some profile_dir | _ => None end.

Definition world_of (f : path -> option file) : world :=
  mkWorld f [] false false false BLOCKED_DOMAINS 37500.

(** A port file that can be written but not read (mode 0200). *)
Definition writeonly_port_fs : path -> option file :=
  fun p => match p with
           | PortFile => Some (mkFile "23456" false true true)
           | ProfileDir => Some profile_dir
           | _ => None
           end.

(** Port and PID files that cannot be removed (read-only directory). *)
Definition sticky_fs : path -> option file :=
  fun p => match p with
           | PortFile => Some (mkFile "23456" true true false)
           | PidFile => Some (mkFile "{}" true true false)
           | ProfileDir => Some profile_dir
           | _ => None
           end.

(** The world after a first resolution on a fresh install. *)
Definition first_run_world : world := snd (getCdpPort oracle0 (world_of fresh_fs)).

(** The world after a first resolution over a write-only port file. *)
Definition writeonly_run_world : world :=
  snd (getCdpPort oracle0 (world_of writeonly_port_fs)).

(** A page that never reaches network idle: the [networkidle] load times
    out, everything else succeeds. *)
Definition busy_page_oracle : oracle :=
  mkOracle (fun o _ => match o with
                       | OpGoto _ waitUntil _ =>
                           if String.eqb waitUntil "networkidle"
                           then Some (JError "Timeout 30000ms exceeded") else None
                       | _ => None
                       end)
           (fun _ _ => Ok true) (fun _ _ => Ok "shot.png") (random_at 0 zero_in_unit).

(** A [JSON.parse] that accepts only the empty object. *)
Definition json_empty_only (s : string) : exc (option (list (string * string))) :=
  if String.eqb s "{}" then Ok (Some [])
  else Throw (JError "Unexpected token in JSON at position 0").

(** A world where this process launched Chrome and holds a Stagehand. *)
Definition running_world : world :=
  mkWorld fresh_fs [] true true true BLOCKED_DOMAINS 37500.

(** Collaborators for the instances: Chrome at [chrome], already serving
    CDP if [running], answering once spawned if [comes_up]; Stagehand's
    [init()] rejected with [init_error] if given. *)
Definition launch_oracle (chrome : option string) (running comes_up : bool)
  (init_error : option jsval) : Launch.ioracle :=
  Launch.mkIOracle
    (fun o _ => match o with Launch.IStagehandInit => init_error | _ => None end)
    (fun o iw => match o with
                 | Launch.IFetch _ =>
                     if running || (comes_up && hasChromeProcess (Launch.base iw)) then Ok true
                     else Throw (JError "fetch failed")
                 | _ => Ok true
                 end)
    (fun o _ => match o with
                | Launch.IVersionJson => Ok "ws://127.0.0.1:37500/devtools/browser/1"
                | _ => Ok ""
                end)
    (fun _ => Ok chrome)
    (fun _ => Ok (Some 4242%Z))
    (fun _ => 1000%Z).

Definition launch_start (f : path -> option file) : Launch.iworld :=
  Launch.mkIWorld (world_of f) [] false.

(* ================================================================= *)
(** * Properties *)

(** ** The blocklist *)

Example scan_chase :
  getBlockedDomain url_lite BLOCKED_DOMAINS "https://www.chase.com/login"
  = Ok (Some "chase.com").
Proof. reflexivity. Qed.

Example scan_relative :
  getBlockedDomain url_lite BLOCKED_DOMAINS "/accounts" = Ok None.
Proof. reflexivity. Qed.

Lemma scan_blocked_find (host fullPath : string) (ds : list string) :
  scan_blocked host fullPath ds = find (entry_matches host fullPath) ds.
Proof.
  induction ds as [|d ds IH]; simpl; [reflexivity|].
  unfold entry_matches.
  destruct (includes d "/");
    [destruct (includes fullPath d) | destruct (_ || _)]; auto.
Qed.

Lemma find_first {A} (f : A -> bool) (l : list A) (d : A) :
  find f l = Some d <->
  exists pre post, l = (pre ++ d :: post)%list /\ f d = true /\
                   Forall (fun e => f e = false) pre.
Proof.
  split.
  - induction l as [|a l IH]; simpl; [discriminate|].
    destruct (f a) eqn:Ha.
    + intros [= <-]. exists [], l. auto.
    + intros H. destruct (IH H) as (pre & post & -> & Hd & Hpre).
      exists (a :: pre), post. auto.
  - intros (pre & post & -> & Hd & Hpre).
    induction Hpre as [|e pre He _ IH]; simpl; [rewrite Hd; reflexivity|].
    rewrite He. exact IH.
Qed.

Lemma find_none {A} (f : A -> bool) (l : list A) :
  find f l = None <-> Forall (fun e => f e = false) l.
Proof.
  split.
  - induction l as [|a l IH]; simpl; [constructor|].
    destruct (f a) eqn:Ha; [discriminate|]. auto.
  - induction 1 as [|a l Ha _ IH]; simpl; [reflexivity|]. rewrite Ha. exact IH.
Qed.

Lemma getBlockedDomain_parsed (parse : string -> option URL) (L : list string)
  (url : string) (u : URL) :
  parse url = Some u ->
  getBlockedDomain parse L url =
  Ok (find (entry_matches (toLowerCase (hostname u))
                          (toLowerCase (hostname u) ++ pathname u)) L).
Proof.
  intros H. unfold getBlockedDomain, new_URL. rewrite H. simpl.
  rewrite scan_blocked_find. reflexivity.
Qed.

Lemma getBlockedDomain_ok (parse : string -> option URL) (L : list string)
  (url : string) : exists r, getBlockedDomain parse L url = Ok r.
Proof.
  unfold getBlockedDomain, new_URL. destruct (parse url); simpl; eauto.
Qed.

Lemma getBlockedDomain_in (parse : string -> option URL) (L : list string)
  (url : string) (d : string) :
  getBlockedDomain parse L url = Ok (Some d) -> In d L.
Proof.
  unfold getBlockedDomain, new_URL. destruct (parse url) as [u|]; simpl;
    [|discriminate].
  rewrite scan_blocked_find. intros [= H]. apply find_some in H. tauto.
Qed.

(** C2 (amended).  For a URL that parses, [getBlockedDomain] returns the
    first blocklist entry, in list order, that matches it: a path-scoped
    entry (containing [/]) when lowercased host + pathname contains it, a
    bare entry when the lowercased host equals it or ends with [.] + entry;
    it returns none exactly when no entry matches.  So a host equal to or a
    subdomain of a bare entry is always blocked (possibly under an earlier
    path-scoped entry), and a URL matching no bare entry is still blocked
    when host + pathname contains a path-scoped entry. *)
Theorem getBlockedDomain_first_match (parse : string -> option URL)
  (L : list string) (url : string) (u : URL) (Hparse : parse url = Some u) :
  let host := toLowerCase (hostname u) in
  let fullPath := host ++ pathname u in
  (forall d, getBlockedDomain parse L url = Ok (Some d) <->
     exists pre post, L = (pre ++ d :: post)%list /\
       entry_matches host fullPath d = true /\
       Forall (fun e => entry_matches host fullPath e = false) pre) /\
  (getBlockedDomain parse L url = Ok None <->
     Forall (fun e => entry_matches host fullPath e = false) L) /\
  (forall d, In d L -> includes d "/" = false ->
     (host = d \/ endsWith host ("." ++ d) = true) ->
     exists e, getBlockedDomain parse L url = Ok (Some e)).
Proof.
  cbv zeta. rewrite (getBlockedDomain_parsed parse L url u Hparse).
  split; [|split].
  - intros d. rewrite <- find_first. split; [intros [= ->] | intros ->]; reflexivity.
  - rewrite <- find_none. split; [intros [= ->] | intros ->]; reflexivity.
  - intros d Hin Hbare Hm.
    destruct (find _ L) as [e|] eqn:Hf; [eauto|].
    apply find_none in Hf. rewrite Forall_forall in Hf.
    specialize (Hf d Hin). unfold entry_matches in Hf. rewrite Hbare in Hf.
    destruct Hm as [<- | Hm].
    + rewrite String.eqb_refl in Hf. discriminate.
    + rewrite Hm, orb_true_r in Hf. discriminate.
Qed.

Lemma getBlockedDomain_first_match_witness :
  url_lite "https://chase.com/login" = Some (mkURL "chase.com" "/login") /\
  getBlockedDomain url_lite BLOCKED_DOMAINS "https://chase.com/login"
  = Ok (Some "chase.com").
Proof.
  split; [reflexivity|].
  apply (proj1 (getBlockedDomain_first_match url_lite BLOCKED_DOMAINS
                  "https://chase.com/login" (mkURL "chase.com" "/login")
                  eq_refl) "chase.com").
  exists [], (tl BLOCKED_DOMAINS). split; [reflexivity|].
  split; [reflexivity | constructor].
Defined.

(** C2 counterexample.  [https://stripe.com/dashboard] has a host that is
    no bare entry nor a subdomain of one, yet it is blocked (by the
    path-scoped entry); and a host equal to the bare entry
    [mail.google.com] is reported under [stripe.com/dashboard]. *)
Lemma getBlockedDomain_path_entry_cex :
  existsb (fun d => negb (includes d "/") &&
                    (String.eqb "stripe.com" d ||
                     endsWith "stripe.com" ("." ++ d))) BLOCKED_DOMAINS = false /\
  getBlockedDomain url_lite BLOCKED_DOMAINS "https://stripe.com/dashboard"
  = Ok (Some "stripe.com/dashboard") /\
  getBlockedDomain url_lite BLOCKED_DOMAINS
    "https://mail.google.com/stripe.com/dashboard"
  = Ok (Some "stripe.com/dashboard").
Proof. vm_compute. repeat split. Qed.

(** C3 (amended).  A bare (path-free) entry blocks its own host and every
    subdomain of it: with only [d] in the blocklist, a URL whose lowercased
    host is [d] itself or ends with [.] + [d] is blocked, and
    [getBlockedDomain] returns [d]. *)
Theorem bare_entry_blocks_subdomains (parse : string -> option URL)
  (url : string) (u : URL) (d : string)
  (Hparse : parse url = Some u) (Hbare : includes d "/" = false)
  (Hsub : toLowerCase (hostname u) = d \/
          endsWith (toLowerCase (hostname u)) ("." ++ d) = true) :
  getBlockedDomain parse [d] url = Ok (Some d).
Proof.
  rewrite (getBlockedDomain_parsed parse [d] url u Hparse). simpl.
  unfold entry_matches. rewrite Hbare.
  destruct Hsub as [Heq | Hend].
  - rewrite Heq, String.eqb_refl. reflexivity.
  - rewrite Hend, orb_true_r. reflexivity.
Qed.

Lemma bare_entry_blocks_subdomains_witness :
  getBlockedDomain url_lite ["google.com"] "https://accounts.google.com/"
  = Ok (Some "google.com").
Proof.
  apply (bare_entry_blocks_subdomains url_lite "https://accounts.google.com/"
           (mkURL "accounts.google.com" "/") "google.com");
    [reflexivity | reflexivity | right; reflexivity].
Defined.

(** C3 counterexample.  With only [google.com] in the blocklist, or after
    [addBlockedDomain("google.com")] on the shipped list, the subdomain
    [accounts.google.com] is blocked; on the shipped list the unlisted
    [secure.chase.com] is blocked by [chase.com]. *)
Lemma bare_entry_subdomain_cex :
  getBlockedDomain url_lite ["google.com"] "https://accounts.google.com/"
  = Ok (Some "google.com") /\
  getBlockedDomain url_lite (addBlockedDomain "google.com" BLOCKED_DOMAINS)
    "https://accounts.google.com/" = Ok (Some "google.com") /\
  existsb (String.eqb "secure.chase.com") BLOCKED_DOMAINS = false /\
  getBlockedDomain url_lite BLOCKED_DOMAINS "https://secure.chase.com/"
  = Ok (Some "chase.com").
Proof. vm_compute. repeat split. Qed.

(** C7.  On input the URL parser rejects (malformed or relative strings)
    [getBlockedDomain] returns none, and it never throws: its result is
    always a value. *)
Theorem getBlockedDomain_fail_open (parse : string -> option URL)
  (L : list string) :
  (forall url, parse url = None -> getBlockedDomain parse L url = Ok None) /\
  (forall url, exists r, getBlockedDomain parse L url = Ok r).
Proof.
  split.
  - intros url H. unfold getBlockedDomain, new_URL. rewrite H. reflexivity.
  - apply getBlockedDomain_ok.
Qed.

Lemma getBlockedDomain_fail_open_witness :
  url_lite "/relative/path" = None /\
  getBlockedDomain url_lite BLOCKED_DOMAINS "/relative/path" = Ok None.
Proof.
  split; [reflexivity|].
  apply (proj1 (getBlockedDomain_fail_open url_lite BLOCKED_DOMAINS)).
  reflexivity.
Defined.

(** ** The action check *)

Example matches_two :
  url_matches "open https://example.com then HTTPS://secure.chase.com/login."
  = ["https://example.com"; "HTTPS://secure.chase.com/login."].
Proof. reflexivity. Qed.

Lemma BLOCKED_DOMAINS_nonempty :
  Forall (fun e => e <> EmptyString) BLOCKED_DOMAINS.
Proof. repeat constructor; discriminate. Qed.

Lemma actionReferences_first_blocked (parse : string -> option URL)
  (L : list string) (action : string) :
  actionReferencesBlockedDomain parse L action
  = first_blocked parse L (url_matches action).
Proof.
  unfold actionReferencesBlockedDomain. destruct (url_matches action); reflexivity.
Qed.

Lemma first_blocked_spec (parse : string -> option URL) (L : list string)
  (HL : Forall (fun e => e <> EmptyString) L) (urls : list string) :
  (forall d, first_blocked parse L urls = Ok (Some d) <->
     exists pre u post, urls = (pre ++ u :: post)%list /\
       Forall (fun v => getBlockedDomain parse L v = Ok None) pre /\
       getBlockedDomain parse L u = Ok (Some d)) /\
  (first_blocked parse L urls = Ok None <->
     Forall (fun v => getBlockedDomain parse L v = Ok None) urls).
Proof.
  induction urls as [|u urls [IH1 IH2]]; simpl.
  - split.
    + intros d. split; [discriminate|].
      intros (pre & u & post & H & _). destruct pre; discriminate.
    + split; [constructor | reflexivity].
  - destruct (getBlockedDomain_ok parse L u) as [r Hr]. rewrite Hr. simpl.
    destruct r as [d'|].
    + assert (Htr : truthy (Some d') = true).
      { apply getBlockedDomain_in in Hr. rewrite Forall_forall in HL.
        specialize (HL d' Hr). simpl. destruct (String.eqb_spec d' EmptyString);
          [contradiction | reflexivity]. }
      rewrite Htr. split.
      * intros d. split.
        -- intros [= <-]. exists [], u, urls. auto.
        -- intros (pre & v & post & H & Hpre & Hv).
           destruct pre as [|w pre]; simpl in H; injection H as Hw Hrest; subst.
           ++ rewrite Hr in Hv. exact Hv.
           ++ inversion Hpre; subst. congruence.
      * split; [discriminate|]. intros H. inversion H; subst. congruence.
    + simpl. split.
      * intros d. rewrite IH1. split.
        -- intros (pre & v & post & Hu & Hpre & Hv).
           exists (u :: pre), v, post. rewrite Hu. auto.
        -- intros (pre & v & post & H & Hpre & Hv).
           destruct pre as [|w pre]; simpl in H; injection H as Hw Hrest; subst.
           ++ congruence.
           ++ inversion Hpre; subst. exists pre, v, post. auto.
      * rewrite IH2. split; [auto | intros H; inversion H; auto].
Qed.

(** C8.  With a blocklist of non-empty entries, [actionReferencesBlockedDomain]
    returns a domain [d] exactly when one of the URLs the pattern matches in
    the text is blocked, [d] being what [getBlockedDomain] returns for the
    first such URL on its own (all earlier matches are not blocked); it
    returns none exactly when no matched URL is blocked; it never throws. *)
Theorem actionReferences_isolation (parse : string -> option URL)
  (L : list string) (HL : Forall (fun e => e <> EmptyString) L)
  (action : string) :
  (forall d, actionReferencesBlockedDomain parse L action = Ok (Some d) <->
     exists pre u post, url_matches action = (pre ++ u :: post)%list /\
       Forall (fun v => getBlockedDomain parse L v = Ok None) pre /\
       getBlockedDomain parse L u = Ok (Some d)) /\
  (actionReferencesBlockedDomain parse L action = Ok None <->
     Forall (fun v => getBlockedDomain parse L v = Ok None) (url_matches action)) /\
  (exists r, actionReferencesBlockedDomain parse L action = Ok r).
Proof.
  rewrite actionReferences_first_blocked.
  destruct (first_blocked_spec parse L HL (url_matches action)) as [H1 H2].
  split; [exact H1 | split; [exact H2|]].
  clear H1 H2. induction (url_matches action) as [|u urls IH]; simpl; eauto.
  destruct (getBlockedDomain_ok parse L u) as [r Hr]. rewrite Hr. simpl.
  destruct (truthy r); eauto.
Qed.

Lemma actionReferences_isolation_witness :
  actionReferencesBlockedDomain url_lite BLOCKED_DOMAINS
    "open https://example.com then https://secure.chase.com/login"
  = Ok (Some "chase.com").
Proof.
  apply (proj1 (actionReferences_isolation url_lite BLOCKED_DOMAINS
                  BLOCKED_DOMAINS_nonempty
                  "open https://example.com then https://secure.chase.com/login")
               "chase.com").
  exists ["https://example.com"], "https://secure.chase.com/login", [].
  split; [reflexivity|]. split; [repeat constructor|reflexivity].
Defined.

Lemma includesL_cons (c : ascii) (t sub : list ascii) :
  includesL (c :: t) sub = prefixL sub (c :: t) || includesL t sub.
Proof. reflexivity. Qed.

Lemma colon_slashes_some (r r' : list ascii) :
  colon_slashes r = Some r' -> r = (":" :: "/" :: "/" :: r')%char.
Proof.
  destruct r as [|c1 [|c2 [|c3 r]]]; simpl; try discriminate.
  destruct (Ascii.eqb c1 ":") eqn:E1; [|discriminate].
  destruct (Ascii.eqb c2 "/") eqn:E2; [|discriminate].
  destruct (Ascii.eqb c3 "/") eqn:E3; [|discriminate].
  apply Ascii.eqb_eq in E1, E2, E3. subst. intros [= ->]. reflexivity.
Qed.

Lemma ci_eq (c x : ascii) : ci c x = true -> lower_char c = x.
Proof. unfold ci. apply Ascii.eqb_eq. Qed.

(** A match of the URL pattern starts with [http://] or [https://], up to
    case. *)
Lemma match_at_scheme (l : list ascii) (n : nat) :
  match_at l = Some n ->
  prefixL (list_ascii_of_string "http://") (lowerL l) = true \/
  prefixL (list_ascii_of_string "https://") (lowerL l) = true.
Proof.
  destruct l as [|h [|t1 [|t2 [|p rest]]]]; try discriminate.
  unfold match_at.
  destruct (ci h "h") eqn:Eh; [|discriminate].
  destruct (ci t1 "t") eqn:Et1; [|discriminate].
  destruct (ci t2 "t") eqn:Et2; [|discriminate].
  destruct (ci p "p") eqn:Ep; [|discriminate]. simpl andb. cbv iota.
  apply ci_eq in Eh, Et1, Et2, Ep.
  unfold lowerL. simpl map. rewrite Eh, Et1, Et2, Ep.
  destruct rest as [|s r].
  - intros H. simpl in H. discriminate.
  - destruct (ci s "s") eqn:Es.
    + destruct (colon_slashes r) as [r'|] eqn:Ec.
      * intros _. right. apply ci_eq in Es. apply colon_slashes_some in Ec.
        subst r. simpl. rewrite Es. reflexivity.
      * destruct (colon_slashes (s :: r)) as [r'|] eqn:Ec'; [|discriminate].
        intros _. apply colon_slashes_some in Ec'. injection Ec' as -> ->.
        vm_compute in Es. discriminate.
    + destruct (colon_slashes (s :: r)) as [r'|] eqn:Ec'; [|discriminate].
      intros _. left. apply colon_slashes_some in Ec'. injection Ec' as -> ->.
      reflexivity.
Qed.

Lemma scan_urls_no_scheme (fuel : nat) (l : list ascii) :
  includesL (lowerL l) (list_ascii_of_string "http://") = false ->
  includesL (lowerL l) (list_ascii_of_string "https://") = false ->
  scan_urls fuel l = [].
Proof.
  revert l. induction fuel as [|f IH]; intros l H1 H2; [reflexivity|].
  destruct l as [|c t]; [reflexivity|].
  change (lowerL (c :: t)) with (lower_char c :: lowerL t) in H1, H2.
  rewrite includesL_cons in H1, H2.
  apply orb_false_iff in H1 as [P1 I1]. apply orb_false_iff in H2 as [P2 I2].
  cbn [scan_urls]. destruct (match_at (c :: t)) as [n|] eqn:Hm.
  - apply match_at_scheme in Hm.
    change (lowerL (c :: t)) with (lower_char c :: lowerL t) in Hm.
    rewrite P1, P2 in Hm. destruct Hm; discriminate.
  - apply IH; assumption.
Qed.

(** C10.  [actionReferencesBlockedDomain] only looks at substrings starting
    with [http://] or [https://] (in any case): on an action text containing
    neither, for instance one naming a blocked domain without a scheme, it
    returns none, whatever the blocklist. *)
Theorem actionReferences_needs_scheme (parse : string -> option URL)
  (L : list string) (action : string)
  (Hhttp : includes (toLowerCase action) "http://" = false)
  (Hhttps : includes (toLowerCase action) "https://" = false) :
  actionReferencesBlockedDomain parse L action = Ok None.
Proof.
  unfold includes, toLowerCase in Hhttp, Hhttps.
  rewrite list_ascii_of_string_of_list_ascii in Hhttp, Hhttps.
  unfold actionReferencesBlockedDomain, url_matches.
  rewrite (scan_urls_no_scheme _ _ Hhttp Hhttps). reflexivity.
Qed.

Lemma actionReferences_needs_scheme_witness :
  includes "go to chase.com and log in" "chase.com" = true /\
  actionReferencesBlockedDomain url_lite BLOCKED_DOMAINS
    "go to chase.com and log in" = Ok None.
Proof.
  split; [reflexivity|].
  apply actionReferences_needs_scheme; reflexivity.
Defined.

(** ** The blocklist gate of [navigate] and [act] *)

Lemma truthy_member (L : list string) (d : string)
  (HL : Forall (fun e => e <> EmptyString) L) :
  In d L -> truthy (Some d) = true.
Proof.
  intros Hin. rewrite Forall_forall in HL. specialize (HL d Hin). simpl.
  destruct (String.eqb_spec d EmptyString); [contradiction | reflexivity].
Qed.

Lemma actionReferences_in (parse : string -> option URL) (L : list string)
  (action d : string) :
  actionReferencesBlockedDomain parse L action = Ok (Some d) -> In d L.
Proof.
  rewrite actionReferences_first_blocked.
  induction (url_matches action) as [|u urls IH]; simpl; [discriminate|].
  destruct (getBlockedDomain_ok parse L u) as [r Hr]. rewrite Hr. simpl.
  destruct (truthy r); [|exact IH].
  intros [= ->]. apply getBlockedDomain_in in Hr. exact Hr.
Qed.

Lemma navigate_blocked (parse : string -> option URL) (O : oracle)
  (url d : string) (w : world)
  (HL : Forall (fun e => e <> EmptyString) (blocked w))
  (H : getBlockedDomain parse (blocked w) url = Ok (Some d)) :
  navigate parse O url w = (Ok (failure (blocked_nav_msg d)), w).
Proof.
  unfold navigate, bind, gets, lift_exc. rewrite H.
  rewrite (truthy_member _ _ HL (getBlockedDomain_in _ _ _ _ H)). reflexivity.
Qed.

Lemma act_blocked (parse : string -> option URL) (O : oracle)
  (action d : string) (w : world)
  (HL : Forall (fun e => e <> EmptyString) (blocked w))
  (H : actionReferencesBlockedDomain parse (blocked w) action = Ok (Some d)) :
  act parse O action w = (Ok (failure (blocked_act_msg d)), w).
Proof.
  unfold act, bind, gets, lift_exc. rewrite H.
  rewrite (truthy_member _ _ HL (actionReferences_in _ _ _ _ H)). reflexivity.
Qed.

(** C1.  With a blocklist of non-empty entries: when [getBlockedDomain]
    finds a blocked domain [d], [navigate] returns
    [{success:false, error:"BLOCKED: Navigation to \"d\" is restricted by
    security policy."}] and leaves the world exactly as it was (no
    [initBrowser], no browser or network operation, no file change); [act]
    does the same with its own message when [actionReferencesBlockedDomain]
    finds [d]; and [main] on [navigate "https://chase.com/login"] prints that
    failure for [chase.com] on stdout with exit code 0, after only the
    profile preparation. *)
Theorem blocklist_gate_short_circuits (parse : string -> option URL)
  (schema_of_json : string -> exc (option (list (string * string))))
  (O : oracle) (w : world)
  (HL : Forall (fun e => e <> EmptyString) (blocked w)) :
  (forall url d, getBlockedDomain parse (blocked w) url = Ok (Some d) ->
     navigate parse O url w = (Ok (failure (blocked_nav_msg d)), w)) /\
  (forall action d,
     actionReferencesBlockedDomain parse (blocked w) action = Ok (Some d) ->
     act parse O action w = (Ok (failure (blocked_act_msg d)), w)) /\
  (parse "https://chase.com/login" = Some (mkURL "chase.com" "/login") ->
   blocked w = BLOCKED_DOMAINS ->
   o_unit O OpPrepareProfile (log_op OpPrepareProfile w) = None ->
   main parse schema_of_json O ["navigate"; "https://chase.com/login"] w
   = (Ok (0%Z, Stdout (failure ("BLOCKED: Navigation to " ++ dq ++ "chase.com"
                                ++ dq ++ " is restricted by security policy."))),
      log_op OpPrepareProfile w)).
Proof.
  split; [|split].
  - intros url d H. apply navigate_blocked; assumption.
  - intros action d H. apply act_blocked; assumption.
  - intros Hp Hb Hprep. unfold main. cbv [bind callU]. rewrite Hprep. cbv [try_].
    change (dispatch parse schema_of_json O ["navigate"; "https://chase.com/login"]
              (log_op OpPrepareProfile w))
      with (navigate parse O "https://chase.com/login" (log_op OpPrepareProfile w)).
    rewrite (navigate_blocked parse O "https://chase.com/login" "chase.com"
               (log_op OpPrepareProfile w) HL).
    + reflexivity.
    + change (blocked (log_op OpPrepareProfile w)) with (blocked w). rewrite Hb.
      rewrite (getBlockedDomain_parsed _ _ _ _ Hp). reflexivity.
Qed.

Lemma blocklist_gate_short_circuits_witness :
  main url_lite no_json oracle0 ["navigate"; "https://chase.com/login"]
    (world_of fresh_fs)
  = (Ok (0%Z, Stdout (failure ("BLOCKED: Navigation to " ++ dq ++ "chase.com"
                               ++ dq ++ " is restricted by security policy."))),
     log_op OpPrepareProfile (world_of fresh_fs)).
Proof.
  apply (proj2 (proj2 (blocklist_gate_short_circuits url_lite no_json oracle0
                         (world_of fresh_fs) BLOCKED_DOMAINS_nonempty)));
    reflexivity.
Defined.

(** ** The [extract] schema *)

Example schema_price_only :
  build_schema (Some [("price", "number")]) = Some [("price", ZNumber)].
Proof. reflexivity. Qed.

Lemma obj_set_fresh {V} (key : string) (v : V) (o : list (string * V)) :
  ~ In key (map fst o) -> obj_set key v o = (o ++ [(key, v)])%list.
Proof.
  induction o as [|[k v'] o IH]; simpl; [reflexivity|].
  intros Hn. destruct (String.eqb_spec key k) as [->|_].
  - exfalso. apply Hn. left. reflexivity.
  - rewrite IH; [reflexivity|]. intros Hin. apply Hn. right. exact Hin.
Qed.

Lemma build_fields_spec (entries : list (string * string))
  (zs : list (string * ztype)) (v : bool) :
  NoDup (map fst zs ++ map fst entries) ->
  build_fields entries zs v =
  ((zs ++ recognized_fields entries)%list,
   v && forallb (fun kt => match ztype_of (snd kt) with
                           | Some _ => true | None => false end) entries).
Proof.
  revert zs v. induction entries as [|[k t] rest IH]; intros zs v Hnd; simpl.
  - rewrite app_nil_r, andb_true_r. reflexivity.
  - simpl in Hnd. destruct (ztype_of t) as [z|] eqn:Ht.
    + rewrite obj_set_fresh.
      * rewrite IH.
        -- rewrite <- app_assoc. reflexivity.
        -- rewrite map_app, <- app_assoc. exact Hnd.
      * intros Hin. apply (NoDup_remove_2 _ _ _ Hnd). apply in_or_app. left. exact Hin.
    + rewrite IH.
      * rewrite andb_false_r. reflexivity.
      * exact (NoDup_remove_1 _ _ _ Hnd).
Qed.

(** C4 (amended).  For a schema object with distinct keys, [extract]
    passes a schema only if the object has at least one field and every
    field has a recognized type; it then holds exactly the fields with their
    types.  If some field has an unrecognized type, or the object is empty,
    no schema is passed at all.  When [initBrowser] succeeds, the operation recorded for
    [stagehand.extract] carries that schema. *)
Theorem extract_schema_all_or_nothing (entries : list (string * string))
  (Hkeys : NoDup (map fst entries)) :
  (Exists (fun kt => ztype_of (snd kt) = None) entries ->
   build_schema (Some entries) = None) /\
  (Forall (fun kt => ztype_of (snd kt) <> None) entries -> entries <> [] ->
   build_schema (Some entries) = Some (recognized_fields entries)) /\
  (entries = [] -> build_schema (Some entries) = None) /\
  (forall O instruction w,
     o_unit O OpInitBrowser (log_op OpInitBrowser w) = None ->
     exists rest, trace (snd (extract O instruction (Some entries) w)) =
       (trace w ++ OpInitBrowser
                 :: OpExtract instruction (build_schema (Some entries)) :: rest)%list).
Proof.
  split; [|split; [|split]].
  - unfold build_schema.
    rewrite (build_fields_spec entries [] true Hkeys). simpl app. cbv iota beta.
    intros Hex. replace (forallb _ entries) with false; [reflexivity|].
    symmetry. apply not_true_iff_false. intros Hall.
    rewrite forallb_forall in Hall. apply Exists_exists in Hex as [kt [Hin Hn]].
    specialize (Hall kt Hin). rewrite Hn in Hall. discriminate.
  - unfold build_schema.
    rewrite (build_fields_spec entries [] true Hkeys). simpl app. cbv iota beta.
    intros Hall Hne. replace (forallb _ entries) with true.
    + destruct entries as [|[k t] rest]; [contradiction|].
      inversion Hall as [|? ? Hkt _]; subst. simpl in Hkt |- *.
      destruct (ztype_of t); [reflexivity | contradiction].
    + symmetry. apply forallb_forall. intros kt Hin.
      rewrite Forall_forall in Hall. specialize (Hall kt Hin).
      destruct (ztype_of (snd kt)); [reflexivity | contradiction].
  - intros ->. reflexivity.
  - intros O instruction w Hinit.
    unfold extract, catch_result, try_, bind, initBrowser, callU, callS,
      takeScreenshot, ret.
    rewrite Hinit.
    destruct (o_str O (OpExtract instruction (build_schema (Some entries)))
                (log_op (OpExtract instruction (build_schema (Some entries)))
                   (log_op OpInitBrowser w))) as [r|e].
    + unfold callS.
      match goal with |- context [o_str O OpTakeScreenshot ?w'] =>
        destruct (o_str O OpTakeScreenshot w') as [s|e] end; simpl;
        rewrite <- !app_assoc; eexists; reflexivity.
    + simpl. rewrite <- !app_assoc. exists []. reflexivity.
Qed.

Lemma extract_schema_all_or_nothing_witness :
  build_schema (Some [("price", "number"); ("in_stock", "boolean")])
  = Some [("price", ZNumber); ("in_stock", ZBoolean)].
Proof.
  apply (proj1 (proj2 (extract_schema_all_or_nothing
                         [("price", "number"); ("in_stock", "boolean")]
                         ltac:(repeat constructor; simpl; intuition discriminate)))).
  - repeat constructor; discriminate.
  - discriminate.
Defined.

(** C4 counterexample.  For [{"price":"number","color":"purple"}] no schema
    is built, and [stagehand.extract] is called with the instruction
    alone. *)
Lemma extract_partial_schema_cex :
  build_schema (Some [("price", "number"); ("color", "purple")]) = None /\
  trace (snd (extract oracle0 "get price"
                (Some [("price", "number"); ("color", "purple")])
                (world_of fresh_fs)))
  = [OpInitBrowser; OpExtract "get price" None; OpTakeScreenshot].
Proof. split; reflexivity. Qed.

(** ** The shutdown path *)

Create HintDb js.

Section MonadFacts.
Context {A B : Type}.

Lemma nt_ret (a : A) : no_throw (ret a).
Proof. intros w. exists a. reflexivity. Qed.

Lemma nt_gets (f : world -> A) : no_throw (gets f).
Proof. intros w. exists (f w). reflexivity. Qed.

Lemma nt_bind (m : M A) (k : A -> M B) :
  no_throw m -> (forall a, no_throw (k a)) -> no_throw (bind m k).
Proof.
  intros Hm Hk w. unfold bind. destruct (Hm w) as [a Ha].
  destruct (m w) as [r w']. simpl in Ha. subst r. apply Hk.
Qed.

Lemma nt_try (m : M A) (h : jsval -> M A) :
  (forall e, no_throw (h e)) -> no_throw (try_ m h).
Proof.
  intros Hh w. unfold try_. destruct (m w) as [[a|e] w']; [exists a; reflexivity | apply Hh].
Qed.

Lemma nt_finally (m : M A) (fin : M unit) :
  no_throw m -> no_throw fin -> no_throw (finally_ m fin).
Proof.
  intros Hm Hf w. unfold finally_. destruct (Hm w) as [a Ha].
  destruct (m w) as [r w1]. simpl in Ha. subst r.
  destruct (Hf w1) as [u Hu]. destruct (fin w1) as [r2 w2]. simpl in Hu. subst r2.
  exists a. reflexivity.
Qed.

Lemma nt_if (b : bool) (m1 m2 : M A) :
  no_throw m1 -> no_throw m2 -> no_throw (if b then m1 else m2).
Proof. destruct b; auto. Qed.

Lemma fs_ret (a : A) : fs_step (ret a) (fun f => f).
Proof. intros w q. reflexivity. Qed.

Lemma fs_gets (f : world -> A) : fs_step (gets f) (fun f => f).
Proof. intros w q. reflexivity. Qed.

Lemma fs_throw (e : jsval) : fs_step (@throw A e) (fun f => f).
Proof. intros w q. reflexivity. Qed.

Lemma fs_lift (m : exc A) : fs_step (lift_exc m) (fun f => f).
Proof. intros w q. reflexivity. Qed.

Lemma fs_bind_id (m : M A) (k : A -> M B) :
  fs_step m (fun f => f) -> (forall a, fs_step (k a) (fun f => f)) ->
  fs_step (bind m k) (fun f => f).
Proof.
  intros Hm Hk w q. unfold bind. specialize (Hm w q).
  destruct (m w) as [[a|e] w']; simpl in *; [rewrite Hk; exact Hm | exact Hm].
Qed.

Lemma fs_bind_nt (m : M A) (k : A -> M B) G1 G2 :
  no_throw m -> fs_step m G1 -> (forall a, fs_step (k a) G2) -> fs_ext G2 ->
  fs_step (bind m k) (fun f => G2 (G1 f)).
Proof.
  intros Hnt Hm Hk HG w q. unfold bind. destruct (Hnt w) as [a Ha].
  pose proof (Hm w) as Hmw. destruct (m w) as [r w']. simpl in Ha, Hmw. subst r.
  rewrite Hk. apply HG. exact Hmw.
Qed.

Lemma fs_bind_nt_id (m : M A) (k : A -> M B) G :
  no_throw m -> fs_step m (fun f => f) -> (forall a, fs_step (k a) G) -> fs_ext G ->
  fs_step (bind m k) G.
Proof.
  intros Hnt Hm Hk HG w q. unfold bind. destruct (Hnt w) as [a Ha].
  pose proof (Hm w) as Hmw. destruct (m w) as [r w']. simpl in Ha, Hmw. subst r.
  rewrite Hk. apply HG. exact Hmw.
Qed.

Lemma fs_try_id (m : M A) (h : jsval -> M A) :
  fs_step m (fun f => f) -> (forall e, fs_step (h e) (fun f => f)) ->
  fs_step (try_ m h) (fun f => f).
Proof.
  intros Hm Hh w q. unfold try_. specialize (Hm w q).
  destruct (m w) as [[a|e] w']; simpl in *; [exact Hm | rewrite Hh; exact Hm].
Qed.

Lemma fs_finally (m : M A) (fin : M unit) G :
  fs_step m (fun f => f) -> fs_step fin G -> fs_ext G ->
  fs_step (finally_ m fin) G.
Proof.
  intros Hm Hf HG w q. unfold finally_. pose proof (Hm w) as Hmw.
  destruct (m w) as [r w1]. pose proof (Hf w1 q) as Hfw.
  destruct (fin w1) as [r2 w2]. simpl in *. rewrite Hfw. apply HG. exact Hmw.
Qed.

Lemma fs_if (b : bool) (m1 m2 : M A) G :
  fs_step m1 G -> fs_step m2 G -> fs_step (if b then m1 else m2) G.
Proof. destruct b; auto. Qed.

End MonadFacts.

Lemma nt_modify (f : world -> world) : no_throw (modify f).
Proof. intros w. exists tt. reflexivity. Qed.

Lemma nt_existsSync (p : path) : no_throw (existsSync p).
Proof. apply nt_gets. Qed.

Lemma fs_modify_stagehand (b : bool) : fs_step (modify (set_stagehand b)) (fun f => f).
Proof. intros w q. reflexivity. Qed.

Lemma fs_modify_chrome (b c : bool) : fs_step (modify (set_chrome b c)) (fun f => f).
Proof. intros w q. reflexivity. Qed.

Lemma fs_emit (o : op) : fs_step (emit o) (fun f => f).
Proof. intros w q. reflexivity. Qed.

Lemma fs_existsSync (p : path) : fs_step (existsSync p) (fun f => f).
Proof. intros w q. reflexivity. Qed.

Lemma fs_readFileSync (p : path) : fs_step (readFileSync p) (fun f => f).
Proof. intros w q. unfold readFileSync. destruct (fs w p) as [f|]; [destruct (readable f)|]; reflexivity. Qed.

Lemma fs_callU (O : oracle) (o : op) : fs_step (callU O o) (fun f => f).
Proof. intros w q. reflexivity. Qed.

Lemma fs_callB (O : oracle) (o : op) : fs_step (callB O o) (fun f => f).
Proof. intros w q. reflexivity. Qed.

Lemma fs_callS (O : oracle) (o : op) : fs_step (callS O o) (fun f => f).
Proof. intros w q. reflexivity. Qed.

Lemma fs_ext_id : fs_ext (fun f => f).
Proof. intros f f' H q. apply H. Qed.

Lemma fs_ext_unlinkG (p : path) : fs_ext (unlinkG p).
Proof.
  intros f f' H q. unfold unlinkG. destruct (path_eq_dec p q); rewrite H; reflexivity.
Qed.

Lemma nt_unlink_if_exists (p : path) : no_throw (unlink_if_exists p).
Proof.
  apply nt_bind; [apply nt_existsSync|]. intros ex.
  apply nt_if; [apply nt_try; intros; apply nt_ret | apply nt_ret].
Qed.

Lemma fs_unlink_if_exists (p : path) : fs_step (unlink_if_exists p) (unlinkG p).
Proof.
  intros w q. unfold unlink_if_exists, bind, existsSync, gets, try_, unlinkSync, unlinkG.
  cbv beta. destruct (fs w p) as [f|] eqn:E; [destruct (deletable f) eqn:D|];
    simpl; rewrite ?E, ?D; simpl;
    destruct (path_eq_dec p q) as [<-|Hne]; simpl; rewrite ?E, ?D; try reflexivity;
    unfold update_fs, removed_if_deletable; rewrite ?D;
    repeat destruct (path_eq_dec _ _); congruence.
Qed.

#[export] Hint Resolve nt_ret nt_gets nt_modify nt_existsSync nt_unlink_if_exists
  fs_ret fs_gets fs_throw fs_lift fs_modify_stagehand fs_modify_chrome fs_emit
  fs_existsSync fs_readFileSync fs_callU fs_callB fs_callS fs_ext_id
  fs_ext_unlinkG fs_unlink_if_exists : js.

(** Splits a [no_throw] or [fs_step] goal along the program's structure. *)
Ltac js_step :=
  match goal with
  | |- no_throw (bind _ _) => apply nt_bind; [ | intro ]
  | |- no_throw (try_ _ _) => apply nt_try; intro
  | |- no_throw (finally_ _ _) => apply nt_finally
  | |- no_throw (if _ then _ else _) => apply nt_if
  | |- no_throw (logError _ _) => apply nt_modify
  | |- fs_step (bind _ _) (fun f => f) => apply fs_bind_id; [ | intro ]
  | |- fs_step (try_ _ _) (fun f => f) => apply fs_try_id; [ | intro ]
  | |- fs_step (bind _ _) _ => apply fs_bind_nt_id; [ | | intro | ]
  | |- fs_step (finally_ _ _) _ => apply fs_finally
  | |- fs_step (if _ then _ else _) _ => apply fs_if
  | |- fs_step (logError _ _) _ => apply fs_emit
  | |- fs_step (kill_by_pid _ _) _ => unfold kill_by_pid
  | |- fs_step (cdp_shutdown _ _) _ => unfold cdp_shutdown
  end.
Ltac js_auto := repeat (js_step || eauto with js).

Lemma closeBrowser_no_throw (O : oracle) : no_throw (closeBrowser O).
Proof. unfold closeBrowser. js_auto. Qed.

Lemma closeBrowser_fs (O : oracle) : fs_step (closeBrowser O) (unlinkG PidFile).
Proof. unfold closeBrowser. js_auto. Qed.

Lemma close_command_fs (O : oracle) (w : world) (q : path) :
  fs (snd (close_command O w)) q = unlinkG PortFile (unlinkG PidFile (fs w)) q.
Proof.
  unfold close_command, bind.
  destruct (closeBrowser_no_throw O w) as [u Hu].
  pose proof (closeBrowser_fs O w) as Hf.
  destruct (closeBrowser O w) as [r w1]. simpl in Hu, Hf. subst r.
  destruct (nt_unlink_if_exists PortFile w1) as [u2 Hu2].
  pose proof (fs_unlink_if_exists PortFile w1 q) as Hp.
  destruct (unlink_if_exists PortFile w1) as [r2 w2]. simpl in Hu2, Hp. subst r2.
  simpl. rewrite Hp. apply fs_ext_unlinkG. exact Hf.
Qed.

Lemma close_command_result (O : oracle) (w : world) :
  fst (close_command O w) = Ok closed_result.
Proof.
  unfold close_command, bind.
  destruct (closeBrowser_no_throw O w) as [u Hu].
  destruct (closeBrowser O w) as [r w1]. simpl in Hu. subst r.
  destruct (nt_unlink_if_exists PortFile w1) as [u2 Hu2].
  destruct (unlink_if_exists PortFile w1) as [r2 w2]. simpl in Hu2. subst r2.
  reflexivity.
Qed.

(** C5: whatever the collaborators do (the oracle answers every Stagehand
    close, signal, fetch, JSON parse, exec and file read, any of them may
    fail) and whatever state the CLI is in, [closeBrowser] completes
    normally: its outcome is never a thrown error. *)
Theorem closeBrowser_never_throws (O : oracle) (w : world) :
  fst (closeBrowser O w) = Ok tt.
Proof.
  destruct (closeBrowser_no_throw O w) as [[] H]. exact H.
Qed.

(** C6 (as the code has it): the close command always reports
    [{success: true, message: Browser closed (profile preserved)}]; the
    port file and the PID file are each gone afterwards unless their
    deletion was refused (the refusal is swallowed and the file stays);
    every other file, the profile directory included, is untouched. *)
Theorem close_command_files (O : oracle) (w : world) :
  fst (close_command O w) = Ok closed_result /\
  fs (snd (close_command O w)) PortFile = removed_if_deletable (fs w PortFile) /\
  fs (snd (close_command O w)) PidFile = removed_if_deletable (fs w PidFile) /\
  fs (snd (close_command O w)) ProfileDir = fs w ProfileDir /\
  fs (snd (close_command O w)) DownloadsDir = fs w DownloadsDir.
Proof.
  split; [apply close_command_result|].
  rewrite !close_command_fs. unfold unlinkG. repeat split; reflexivity.
Qed.

(** C6 counterexample: with a port file and a PID file whose deletion is
    refused, [close] still reports success, but both files are still
    there afterwards, with their contents. *)
Lemma close_command_sticky_cex :
  fst (close_command oracle0 (world_of sticky_fs)) = Ok closed_result /\
  fs (snd (close_command oracle0 (world_of sticky_fs))) PortFile
    = Some (mkFile "23456" true true false) /\
  fs (snd (close_command oracle0 (world_of sticky_fs))) PidFile
    = Some (mkFile "{}" true true false).
Proof. vm_compute. repeat split. Qed.

(** ** Port resolution *)

Lemma digit_char_ok (n : Z) : (0 <= n)%Z ->
  is_digit (digit_char (n mod 10)) = true /\
  digit_value (digit_char (n mod 10)) = (n mod 10)%Z.
Proof.
  intros Hn. pose proof (Z.mod_pos_bound n 10 ltac:(lia)) as Hb.
  unfold digit_char, is_digit, digit_value.
  rewrite Ascii.nat_ascii_embedding by lia. split.
  - apply andb_true_intro; split; apply Nat.leb_le; lia.
  - rewrite Nat2Z.inj_add, Z2Nat.id by lia. lia.
Qed.

Lemma digits_value_app (ds ds' : list ascii) :
  digits_value (ds ++ ds')%list
  = fold_left (fun acc c => acc * 10 + digit_value c)%Z ds' (digits_value ds).
Proof. unfold digits_value. apply fold_left_app. Qed.

Lemma digitsZ_ok (fuel : nat) : forall (n : Z) (acc : list ascii),
  (0 <= n)%Z -> (Z.to_nat n < fuel)%nat ->
  exists ds, digitsZ fuel n acc = (ds ++ acc)%list /\ ds <> [] /\
             forallb is_digit ds = true /\ digits_value ds = n.
Proof.
  induction fuel as [|f IH]; intros n acc Hn Hf; [lia|].
  destruct (digit_char_ok n Hn) as [Hd Hv]. cbn [digitsZ].
  destruct (n <? 10)%Z eqn:Hlt.
  - apply Z.ltb_lt in Hlt. exists [digit_char (n mod 10)].
    split; [reflexivity|]. split; [discriminate|]. split.
    + cbn [forallb]. rewrite Hd. reflexivity.
    + unfold digits_value. cbn [fold_left]. rewrite Hv. rewrite Z.mod_small by lia. lia.
  - apply Z.ltb_ge in Hlt.
    destruct (IH (n / 10)%Z (digit_char (n mod 10) :: acc)) as (ds & Heq & _ & Hall & Hval).
    + apply Z.div_pos; lia.
    + assert (n / 10 < n)%Z by (apply Z.div_lt; lia).
      assert (0 <= n / 10)%Z by (apply Z.div_pos; lia). lia.
    + exists (ds ++ [digit_char (n mod 10)])%list. split.
      * rewrite Heq, <- app_assoc. reflexivity.
      * split; [destruct ds; discriminate|]. split.
        -- rewrite forallb_app, Hall. cbn [forallb]. rewrite Hd. reflexivity.
        -- rewrite digits_value_app, Hval. cbn [fold_left]. rewrite Hv.
           pose proof (Z.div_mod n 10 ltac:(lia)). lia.
Qed.

Lemma digit_not_ws (c : ascii) : is_digit c = true -> is_ws c = false.
Proof.
  unfold is_digit, is_ws. intros H. apply andb_prop in H as [H1 H2].
  apply Nat.leb_le in H1. apply Nat.leb_le in H2.
  destruct (Nat.leb_spec 9 (nat_of_ascii c)), (Nat.leb_spec (nat_of_ascii c) 13),
    (Nat.eqb_spec (nat_of_ascii c) 32); simpl; lia.
Qed.

Lemma dropWhile_digits (l : list ascii) :
  forallb is_digit l = true -> dropWhile is_ws l = l.
Proof.
  destruct l as [|c t]; [reflexivity|]. simpl. intros H.
  apply andb_prop in H as [H _]. rewrite (digit_not_ws c H). reflexivity.
Qed.

Lemma takeWhile_digits (l : list ascii) :
  forallb is_digit l = true -> takeWhile is_digit l = l.
Proof.
  induction l as [|c t IH]; [reflexivity|]. simpl. intros H.
  apply andb_prop in H as [H1 H2]. rewrite H1, IH by exact H2. reflexivity.
Qed.

Lemma forallb_rev_digits (l : list ascii) :
  forallb is_digit l = true -> forallb is_digit (rev l) = true.
Proof.
  rewrite !forallb_forall. intros H x Hx. apply H. apply in_rev. exact Hx.
Qed.

(** [parseInt(String(n).trim(), 10)] gives back [n] for [n > 0]. *)
Lemma parseInt_trim_String_of_Z (n : Z) : (0 < n)%Z ->
  parseInt (trim (String_of_Z n)) = Some n.
Proof.
  intros Hn. unfold String_of_Z.
  rewrite Z.abs_eq by lia.
  destruct (digitsZ_ok (S (Z.to_nat n)) n [] ltac:(lia) ltac:(lia))
    as (ds & Heq & Hne & Hall & Hval).
  rewrite Heq, app_nil_r.
  replace ((n <? 0)%Z) with false by (symmetry; apply Z.ltb_ge; lia).
  unfold trim. rewrite list_ascii_of_string_of_list_ascii.
  rewrite (dropWhile_digits ds Hall).
  rewrite (dropWhile_digits (rev ds) (forallb_rev_digits ds Hall)).
  rewrite rev_involutive.
  unfold parseInt. rewrite list_ascii_of_string_of_list_ascii.
  rewrite (dropWhile_digits ds Hall).
  destruct ds as [|c r]; [contradiction|].
  assert (Hc : is_digit c = true) by (simpl in Hall; apply andb_prop in Hall; apply Hall).
  destruct (Ascii.eqb_spec c "-"%char) as [->|_]; [discriminate|].
  destruct (Ascii.eqb_spec c "+"%char) as [->|_]; [discriminate|].
  rewrite takeWhile_digits by exact Hall. rewrite Hval. f_equal. lia.
Qed.

Lemma random_port_pos (q : Q) : (0 <= q)%Q ->
  (0 < Qfloor (q * (55000 # 1)) + 10000)%Z.
Proof.
  intros Hq. assert (H0 : (0 <= q * (55000 # 1))%Q).
  { apply Qmult_le_0_compat; [exact Hq | discriminate]. }
  apply Qfloor_resp_le in H0. change (Qfloor 0) with 0%Z in H0. lia.
Qed.

(** A readable port file holding a positive number is reused as it is. *)
Lemma getCdpPort_reads (O : oracle) (w : world) (f : file) (n : Z) :
  fs w PortFile = Some f -> readable f = true ->
  positive_port (parseInt (trim (content f))) = Some n ->
  getCdpPort O w = (Ok n, w).
Proof.
  intros E R P.
  cbv beta iota zeta delta [getCdpPort bind existsSync gets try_ readFileSync ret].
  repeat (first [rewrite E | rewrite R | rewrite P]; cbv beta iota). reflexivity.
Qed.

(** Drawing and persisting a fresh port: the port file then holds it. *)
Lemma getCdpPort_fresh (O : oracle) (w w1 : world) (p : Z) :
  (port <- getRandomCdpPort O ;;
   writeFileSync PortFile (String_of_Z port) ;; ret port) w = (Ok p, w1) ->
  (0 < p)%Z /\ exists f, fs w1 PortFile = Some f /\ content f = String_of_Z p.
Proof.
  unfold bind, getRandomCdpPort, writeFileSync, ret. cbv beta iota zeta.
  pose proof (random_port_pos (proj1_sig (o_random O (log_op OpRandom w)))
                (proj1 (proj2_sig (o_random O (log_op OpRandom w))))) as Hpos.
  set (p0 := (Qfloor (proj1_sig (o_random O (log_op OpRandom w)) * (55000 # 1)) + 10000)%Z)
    in *.
  cbn [fs log_op]. destruct (fs w PortFile) as [f|] eqn:E.
  - destruct (writable f); [|discriminate].
    intros H; injection H as <- <-. split; [exact Hpos|].
    eexists; split; [cbn [fs set_fs]; unfold update_fs; reflexivity | reflexivity].
  - intros H; injection H as <- <-. split; [exact Hpos|].
    eexists; split; [cbn [fs set_fs]; unfold update_fs; reflexivity | reflexivity].
Qed.

(** After any successful resolution to [p] the port file exists, and read
    back it gives [p] again. *)
Lemma getCdpPort_leaves (O : oracle) (w w1 : world) (p : Z) :
  getCdpPort O w = (Ok p, w1) ->
  exists f, fs w1 PortFile = Some f /\
            (readable f = true -> positive_port (parseInt (trim (content f))) = Some p).
Proof.
  intros H.
  assert (Hfresh : (port <- getRandomCdpPort O ;;
                    writeFileSync PortFile (String_of_Z port) ;; ret port) w = (Ok p, w1) ->
                   exists f, fs w1 PortFile = Some f /\
                     (readable f = true ->
                      positive_port (parseInt (trim (content f))) = Some p)).
  { intros Hr. destruct (getCdpPort_fresh O w w1 p Hr) as (Hp & f & Ef & Cf).
    exists f. split; [exact Ef|]. intros _. rewrite Cf, parseInt_trim_String_of_Z by exact Hp.
    unfold positive_port. replace ((0 <? p)%Z) with true by (symmetry; apply Z.ltb_lt; exact Hp).
    reflexivity. }
  revert H Hfresh.
  cbv beta iota zeta delta [getCdpPort bind existsSync gets try_ readFileSync ret].
  destruct (fs w PortFile) as [f|] eqn:E; intros H Hfresh.
  - cbv beta iota in H. rewrite E in H. cbv beta iota in H.
    destruct (readable f) eqn:R; cbv beta iota in H.
    + destruct (positive_port (parseInt (trim (content f)))) as [n|] eqn:P;
        cbv beta iota in H.
      * injection H as <- <-. exists f. split; [exact E | intros _; exact P].
      * exact (Hfresh H).
    + exact (Hfresh H).
  - exact (Hfresh H).
Qed.

(** With no port file, [getCdpPort] draws the port from [Math.random]. *)
Lemma getCdpPort_no_file (O : oracle) (w : world) :
  fs w PortFile = None ->
  fst (getCdpPort O w)
  = Ok (Qfloor (proj1_sig (o_random O (log_op OpRandom w)) * (55000 # 1)) + 10000)%Z.
Proof.
  intros E.
  cbv beta iota zeta delta [getCdpPort bind existsSync gets try_ readFileSync ret
                            getRandomCdpPort writeFileSync].
  rewrite E. cbv beta iota. cbn [fs log_op]. rewrite E. reflexivity.
Qed.

(** C9 (as the code has it): once a resolution has returned [p], every
    later resolution, with whatever collaborators, over any state whose
    port file is the one left behind, returns [p] again and changes
    nothing, provided that file is readable; a fresh port is persisted
    with the permissions of the file it overwrites, so a write-only port
    file does not keep [p].  With the port file gone (as after [close]),
    the resolution depends on [Math.random]: 0 gives 10000, 1/2 gives
    37500. *)
Theorem getCdpPort_idempotent_readable (O : oracle) (w w1 : world) (p : Z) :
  getCdpPort O w = (Ok p, w1) ->
  (forall f, fs w1 PortFile = Some f -> readable f = true) ->
  (forall O' w2, fs w2 PortFile = fs w1 PortFile -> getCdpPort O' w2 = (Ok p, w2)) /\
  (forall w3, fs w3 PortFile = None ->
     fst (getCdpPort oracle0 w3) = Ok 10000%Z /\
     fst (getCdpPort oracle_half w3) = Ok 37500%Z).
Proof.
  intros H Hr. split.
  - intros O' w2 E2. destruct (getCdpPort_leaves O w w1 p H) as (f & Ef & Hf).
    apply (getCdpPort_reads O' w2 f p).
    + rewrite E2. exact Ef.
    + apply Hr. exact Ef.
    + apply Hf. apply Hr. exact Ef.
  - intros w3 E3. rewrite !getCdpPort_no_file by exact E3. split; reflexivity.
Qed.

(** The theorem on a fresh install: the first run draws 10000 and
    persists it; later runs reuse it. *)
Lemma getCdpPort_idempotent_readable_witness :
  getCdpPort oracle0 (world_of fresh_fs) = (Ok 10000%Z, first_run_world) /\
  (forall f, fs first_run_world PortFile = Some f -> readable f = true) /\
  getCdpPort oracle_half first_run_world = (Ok 10000%Z, first_run_world).
Proof.
  assert (H1 : getCdpPort oracle0 (world_of fresh_fs) = (Ok 10000%Z, first_run_world))
    by (vm_compute; reflexivity).
  assert (H2 : forall f, fs first_run_world PortFile = Some f -> readable f = true)
    by (intros f Hf; vm_compute in Hf; injection Hf as <-; reflexivity).
  split; [exact H1|]. split; [exact H2|].
  apply (proj1 (getCdpPort_idempotent_readable oracle0 (world_of fresh_fs)
                  first_run_world 10000%Z H1 H2) oracle_half first_run_world).
  reflexivity.
Defined.

(** C9 counterexample: over a write-only port file the first resolution
    returns 10000 and leaves the port file in place (overwritten, still
    unreadable); the next resolution, with no close in between, draws
    again and returns 37500. *)
Lemma getCdpPort_writeonly_cex :
  fst (getCdpPort oracle0 (world_of writeonly_port_fs)) = Ok 10000%Z /\
  fs writeonly_run_world PortFile = Some (mkFile "10000" false true true) /\
  fst (getCdpPort oracle_half writeonly_run_world) = Ok 37500%Z.
Proof. vm_compute. repeat split. Qed.

(* ================================================================= *)
(** * Further properties of the code *)

(** ** Runtime changes to the blocklist *)

Lemma existsb_eqb_In (x : string) (l : list string) :
  existsb (String.eqb x) l = true <-> In x l.
Proof.
  rewrite existsb_exists. split.
  - intros (y & Hy & E). apply String.eqb_eq in E. subst. exact Hy.
  - intros H. exists x. split; [exact H | apply String.eqb_refl].
Qed.

Lemma indexOf_cases (x : string) (ds : list string) :
  (~ In x ds /\ indexOf x ds = (-1)%Z) \/
  (exists pre post, ds = (pre ++ x :: post)%list /\ ~ In x pre /\
                    indexOf x ds = Z.of_nat (length pre)).
Proof.
  induction ds as [|d ds IH]; simpl.
  - left. tauto.
  - destruct (String.eqb_spec d x) as [->|Hne].
    + right. exists [], ds. simpl. tauto.
    + destruct IH as [[Hn Hi] | (pre & post & -> & Hn & Hi)].
      * left. rewrite Hi. simpl. split; [|reflexivity]. intros [H|H]; [congruence | tauto].
      * right. exists (d :: pre), post. split; [reflexivity|]. split.
        -- intros [H|H]; [congruence | tauto].
        -- rewrite Hi. destruct (Z.eqb_spec (Z.of_nat (length pre)) (-1)); [lia|].
           simpl length. lia.
Qed.

Lemma splice1_at (pre post : list string) (x : string) :
  splice1 (length pre) (pre ++ x :: post) = (pre ++ post)%list.
Proof.
  unfold splice1. induction pre as [|a pre IH]; simpl; [reflexivity|].
  f_equal. exact IH.
Qed.

Lemma addBlockedDomain_cases (d : string) (ds : list string) :
  (In (normalize_domain d) ds /\ addBlockedDomain d ds = ds) \/
  (~ In (normalize_domain d) ds /\
   addBlockedDomain d ds = (ds ++ [normalize_domain d])%list).
Proof.
  unfold addBlockedDomain. destruct (existsb (String.eqb (normalize_domain d)) ds) eqn:E.
  - left. split; [apply existsb_eqb_In; exact E | reflexivity].
  - right. split; [|reflexivity]. intros H. apply existsb_eqb_In in H. congruence.
Qed.

Lemma removeBlockedDomain_cases (domain : string) (ds : list string) :
  let n := normalize_domain domain in
  (~ In n ds /\ removeBlockedDomain domain ds = (false, ds)) \/
  (exists pre post, ds = (pre ++ n :: post)%list /\ ~ In n pre /\
                    removeBlockedDomain domain ds = (true, (pre ++ post)%list)).
Proof.
  intros n. unfold removeBlockedDomain. fold n.
  destruct (indexOf_cases n ds) as [[Hn Hi] | (pre & post & Hds & Hn & Hi)].
  - left. rewrite Hi. simpl. tauto.
  - right. exists pre, post. split; [exact Hds|]. split; [exact Hn|].
    rewrite Hi. destruct (Z.eqb_spec (Z.of_nat (length pre)) (-1)); [lia|].
    simpl. rewrite Nat2Z.id, Hds. rewrite splice1_at. reflexivity.
Qed.


Lemma addBlockedDomain_In (d : string) (ds : list string) :
  In (normalize_domain d) (addBlockedDomain d ds).
Proof.
  destruct (addBlockedDomain_cases d ds) as [[Hin E] | [_ E]]; rewrite E;
    [exact Hin | apply in_or_app; right; left; reflexivity].
Qed.

(** [removeBlockedDomain(domain)] normalises [domain] as
    [addBlockedDomain] does; when the normalised entry is on the list it
    removes its first occurrence, and only that, and returns [true];
    otherwise it returns [false] and leaves the list as it is. *)
Theorem removeBlockedDomain_spec (domain : string) (ds : list string) :
  let n := normalize_domain domain in
  (~ In n ds /\ removeBlockedDomain domain ds = (false, ds)) \/
  (exists pre post, ds = (pre ++ n :: post)%list /\ ~ In n pre /\
                    removeBlockedDomain domain ds = (true, (pre ++ post)%list)).
Proof. exact (removeBlockedDomain_cases domain ds). Qed.

(** Adding an entry that was not on the list and then removing it, in any
    spelling that normalises alike (case, [http(s)://], trailing slashes),
    gives back the original list and reports the removal. *)
Theorem add_then_remove_blocked_domain (d d' : string) (ds : list string)
  (Hnew : ~ In (normalize_domain d) ds)
  (Hsame : normalize_domain d' = normalize_domain d) :
  removeBlockedDomain d' (addBlockedDomain d ds) = (true, ds).
Proof.
  destruct (addBlockedDomain_cases d ds) as [[Hin _] | [_ ->]]; [contradiction|].
  destruct (removeBlockedDomain_cases d' (ds ++ [normalize_domain d]))
    as [[Hn _] | (pre & post & Hds & Hpre & ->)].
  - exfalso. apply Hn. rewrite Hsame. apply in_or_app. right. left. reflexivity.
  - f_equal. rewrite Hsame in Hds, Hpre.
    destruct post as [|p post].
    + apply app_inj_tail in Hds as [-> _]. rewrite app_nil_r. reflexivity.
    + exfalso. apply Hnew.
      destruct (exists_last (l := p :: post) ltac:(discriminate)) as (mid & lst & Hl).
      rewrite Hl, app_comm_cons, app_assoc in Hds.
      apply app_inj_tail in Hds as [Hds _]. rewrite Hds. apply in_or_app.
      right. left. reflexivity.
Qed.

Lemma not_In_by_existsb (x : string) (l : list string) :
  existsb (String.eqb x) l = false -> ~ In x l.
Proof. intros E H. apply existsb_eqb_In in H. congruence. Qed.

Lemma add_then_remove_blocked_domain_witness :
  ~ In (normalize_domain "example.com") BLOCKED_DOMAINS /\
  normalize_domain "HTTPS://Example.com/" = normalize_domain "example.com" /\
  removeBlockedDomain "HTTPS://Example.com/"
    (addBlockedDomain "example.com" BLOCKED_DOMAINS) = (true, BLOCKED_DOMAINS).
Proof.
  assert (H1 : ~ In (normalize_domain "example.com") BLOCKED_DOMAINS)
    by (apply not_In_by_existsb; vm_compute; reflexivity).
  assert (H2 : normalize_domain "HTTPS://Example.com/" = normalize_domain "example.com")
    by (vm_compute; reflexivity).
  split; [exact H1|]. split; [exact H2|].
  exact (add_then_remove_blocked_domain "example.com" "HTTPS://Example.com/"
           BLOCKED_DOMAINS H1 H2).
Defined.

(** [addBlockedDomain(domain)] only ever appends: the result is the old
    list unchanged, or the old list followed by the normalised entry alone
    (the latter exactly when the normalised entry was absent); afterwards the
    normalised entry is on the list, adding it again changes nothing, and a
    duplicate-free list stays duplicate-free. *)
Theorem addBlockedDomain_invariants (d : string) (ds : list string) :
  (exists t, addBlockedDomain d ds = (ds ++ t)%list /\
             (t = [] /\ In (normalize_domain d) ds \/
              t = [normalize_domain d] /\ ~ In (normalize_domain d) ds)) /\
  In (normalize_domain d) (addBlockedDomain d ds) /\
  addBlockedDomain d (addBlockedDomain d ds) = addBlockedDomain d ds /\
  (NoDup ds -> NoDup (addBlockedDomain d ds)).
Proof.
  destruct (addBlockedDomain_cases d ds) as [[Hin E] | [Hn E]]; rewrite E.
  - split; [exists []; rewrite app_nil_r; split; [reflexivity | left; split; [reflexivity | exact Hin]]|].
    split; [exact Hin|]. split; [exact E | tauto].
  - split; [exists [normalize_domain d]; split; [reflexivity | right; split; [reflexivity | exact Hn]]|].
    assert (Hin : In (normalize_domain d) (ds ++ [normalize_domain d]))
      by (apply in_or_app; right; left; reflexivity).
    split; [exact Hin|]. split.
    + destruct (addBlockedDomain_cases d (ds ++ [normalize_domain d]))
        as [[_ E2] | [Hn2 _]]; [exact E2 | contradiction].
    + intros Hnd. apply NoDup_app; [exact Hnd | constructor; [intros [] | constructor] |].
      intros x Hx [<-|[]]. contradiction.
Qed.

Lemma addBlockedDomain_invariants_witness :
  addBlockedDomain "Example.com/" ["chase.com"] = ["chase.com"; "example.com"] /\
  NoDup (addBlockedDomain "Example.com/" ["chase.com"]).
Proof.
  split; [vm_compute; reflexivity|].
  apply (proj2 (proj2 (proj2 (addBlockedDomain_invariants "Example.com/" ["chase.com"])))).
  constructor; [intros [] | constructor].
Defined.

Lemma lower_char_idem (c : ascii) : lower_char (lower_char c) = lower_char c.
Proof.
  destruct c as [b0 b1 b2 b3 b4 b5 b6 b7].
  destruct b0, b1, b2, b3, b4, b5, b6, b7; vm_compute; reflexivity.
Qed.

Lemma In_dropWhile (f : ascii -> bool) (l : list ascii) (x : ascii) :
  In x (dropWhile f l) -> In x l.
Proof. induction l as [|a l IH]; simpl; [tauto|]. destruct (f a); simpl; tauto. Qed.

Lemma In_skipn {A} (n : nat) (l : list A) (x : A) : In x (skipn n l) -> In x l.
Proof.
  revert l. induction n as [|n IH]; intros [|a l]; simpl; try tauto.
  intros H. right. apply IH. exact H.
Qed.

Lemma dropWhile_head (f : ascii -> bool) (l : list ascii) (c : ascii) (t : list ascii) :
  dropWhile f l = c :: t -> f c = false.
Proof.
  induction l as [|a l IH]; simpl; [discriminate|].
  destruct (f a) eqn:E; [exact IH | intros [= -> _]; exact E].
Qed.

(** An entry normalised by [addBlockedDomain] or [removeBlockedDomain] is
    its own lower case and never ends with a slash, whatever was passed. *)
Theorem normalize_domain_shape (domain : string) :
  toLowerCase (normalize_domain domain) = normalize_domain domain /\
  endsWith (normalize_domain domain) "/" = false.
Proof.
  unfold normalize_domain.
  set (l2 := strip_scheme (lowerL (list_ascii_of_string domain))).
  set (out := rev (dropWhile (fun c => Ascii.eqb c "/"%char) (rev l2))).
  split.
  - unfold toLowerCase. rewrite list_ascii_of_string_of_list_ascii. f_equal.
    unfold lowerL. rewrite <- map_id. apply map_ext_in. intros c Hc.
    assert (Hl2 : In c l2).
    { unfold out in Hc. apply in_rev in Hc. apply In_dropWhile in Hc.
      apply in_rev. exact Hc. }
    assert (Hl1 : In c (lowerL (list_ascii_of_string domain))).
    { unfold l2, strip_scheme in Hl2.
      destruct (prefixL _ _); [exact (In_skipn _ _ _ Hl2)|].
      destruct (prefixL _ _); [exact (In_skipn _ _ _ Hl2) | exact Hl2]. }
    unfold lowerL in Hl1. apply in_map_iff in Hl1 as (c0 & <- & _).
    apply lower_char_idem.
  - unfold endsWith. rewrite list_ascii_of_string_of_list_ascii.
    unfold out. rewrite rev_involutive. cbn [list_ascii_of_string rev app].
    destruct (dropWhile (fun c => Ascii.eqb c "/"%char) (rev l2)) as [|c t] eqn:E;
      [reflexivity|].
    apply dropWhile_head in E. cbn [prefixL]. rewrite Ascii.eqb_sym, E. reflexivity.
Qed.

(** Once [addBlockedDomain(domain)] has run, every URL the normalised
    entry matches (by host, or by host and path for an entry with a slash)
    is blocked by [getBlockedDomain], possibly reported under an earlier
    entry. *)
Theorem addBlockedDomain_blocks (parse : string -> option URL) (domain : string)
  (ds : list string) (url : string) (u : URL)
  (Hparse : parse url = Some u)
  (Hm : entry_matches (toLowerCase (hostname u))
          (toLowerCase (hostname u) ++ pathname u) (normalize_domain domain) = true) :
  exists e, getBlockedDomain parse (addBlockedDomain domain ds) url = Ok (Some e) /\
            In e (addBlockedDomain domain ds).
Proof.
  rewrite (getBlockedDomain_parsed parse _ url u Hparse).
  destruct (find _ (addBlockedDomain domain ds)) as [e|] eqn:F.
  - exists e. split; [reflexivity|]. apply find_some in F. tauto.
  - exfalso. apply find_none in F. rewrite Forall_forall in F.
    pose proof (addBlockedDomain_In domain ds) as Hin.
    specialize (F _ Hin). congruence.
Qed.

Lemma addBlockedDomain_blocks_witness :
  url_lite "https://shop.example.com/cart" = Some (mkURL "shop.example.com" "/cart") /\
  entry_matches (toLowerCase "shop.example.com") (toLowerCase "shop.example.com" ++ "/cart")
    (normalize_domain "HTTPS://Example.COM/") = true /\
  exists e, getBlockedDomain url_lite (addBlockedDomain "HTTPS://Example.COM/" BLOCKED_DOMAINS)
              "https://shop.example.com/cart" = Ok (Some e) /\
            In e (addBlockedDomain "HTTPS://Example.COM/" BLOCKED_DOMAINS).
Proof.
  assert (H1 : url_lite "https://shop.example.com/cart" = Some (mkURL "shop.example.com" "/cart"))
    by (vm_compute; reflexivity).
  assert (H2 : entry_matches (toLowerCase "shop.example.com")
                 (toLowerCase "shop.example.com" ++ "/cart")
                 (normalize_domain "HTTPS://Example.COM/") = true)
    by (vm_compute; reflexivity).
  split; [exact H1|]. split; [exact H2|].
  exact (addBlockedDomain_blocks url_lite "HTTPS://Example.COM/" BLOCKED_DOMAINS
           "https://shop.example.com/cart" (mkURL "shop.example.com" "/cart") H1 H2).
Defined.

(** ** Chrome profile cleanup *)

(** [cleanupChromeProfile(profileDir)] never throws: it returns [true]
    exactly when the directory existed and was removed in full, and then it
    is gone; otherwise it returns [false]: an absent directory stays absent,
    and a removal that failed (which is logged) leaves whatever part of the
    tree [rmSync] had not deleted yet.  No other path is touched. *)
Theorem cleanupChromeProfile_spec (residue : file -> option file) (p : path) (w : world) :
  let w' := snd (cleanupChromeProfile residue p w) in
  fst (cleanupChromeProfile residue p w)
  = Ok (match fs w p with Some f => deletable f | None => false end) /\
  fs w' p = match fs w p with
            | Some f => if deletable f then None else residue f
            | None => None
            end /\
  (forall q, q <> p -> fs w' q = fs w q).
Proof.
  intros w'. subst w'.
  unfold cleanupChromeProfile, try_, bind, existsSync, gets, rmSync, ret,
    logError, emit, modify.
  cbv beta iota. destruct (fs w p) as [f|] eqn:E; cbv beta iota;
    [cbn [fs log_op]; rewrite E; destruct (deletable f) eqn:D; cbv beta iota|];
    cbn [fs set_fs log_op fst snd]; unfold update_fs;
    (split; [reflexivity|]);
    (split; [destruct (path_eq_dec p p); [reflexivity || exact E | congruence] |]);
    intros q Hq; destruct (path_eq_dec p q); congruence.
Qed.

(** ** The CDP port *)

Lemma random_port_range (q : Q) : (0 <= q /\ q < 1)%Q ->
  (10000 <= Qfloor (q * (55000 # 1)) + 10000 <= 64999)%Z.
Proof.
  intros [Hq0 Hq1]. split; [pose proof (random_port_pos q Hq0) as _|].
  - assert (H0 : (0 <= q * (55000 # 1))%Q)
      by (apply Qmult_le_0_compat; [exact Hq0 | discriminate]).
    apply Qfloor_resp_le in H0. change (Qfloor 0) with 0%Z in H0. lia.
  - assert (Hx : (q * (55000 # 1) < 55000 # 1)%Q).
    { setoid_replace (55000 # 1)%Q with (1 * (55000 # 1))%Q at 2 by reflexivity.
      apply Qmult_lt_r; [reflexivity | exact Hq1]. }
    pose proof (Qfloor_le (q * (55000 # 1))) as Hf.
    assert (Hlt : (inject_Z (Qfloor (q * (55000 # 1))) < inject_Z 55000)%Q).
    { eapply Qle_lt_trans; [exact Hf | exact Hx]. }
    rewrite <- Zlt_Qlt in Hlt. lia.
Qed.

(** [getRandomCdpPort()] returns an integer from 10000 to 64999, so never
    the conventional debugging port 9222, whatever [Math.random] yields; it
    does nothing but draw the random number. *)
Theorem getRandomCdpPort_range (O : oracle) (w : world) :
  exists p, getRandomCdpPort O w = (Ok p, log_op OpRandom w) /\
            (10000 <= p <= 64999)%Z /\ p <> 9222%Z.
Proof.
  eexists. split; [reflexivity|].
  pose proof (random_port_range _ (proj2_sig (o_random O (log_op OpRandom w)))).
  split; [exact H | lia].
Qed.

(** A port file that cannot be read, or whose trimmed text does not start
    with a positive decimal number (for instance [0], [-5] or [abc]), is not
    reused: [getCdpPort] draws a port from 10000 to 64999 and overwrites the
    file with it, keeping the file's permissions; if the file cannot be
    written either, the write error propagates (the CLI fails to start). *)
Theorem getCdpPort_unusable_file (O : oracle) (w : world) (f : file)
  (Hf : fs w PortFile = Some f)
  (Hbad : readable f = false \/ positive_port (parseInt (trim (content f))) = None) :
  let p := (Qfloor (proj1_sig (o_random O (log_op OpRandom w)) * (55000 # 1)) + 10000)%Z in
  (10000 <= p <= 64999)%Z /\
  (writable f = true ->
     fst (getCdpPort O w) = Ok p /\
     fs (snd (getCdpPort O w)) PortFile
       = Some (mkFile (String_of_Z p) (readable f) true (deletable f))) /\
  (writable f = false -> getCdpPort O w = (Throw EACCES, log_op OpRandom w)).
Proof.
  intros p. split; [apply random_port_range; exact (proj2_sig (o_random O (log_op OpRandom w)))|].
  cbv beta iota zeta delta [getCdpPort bind existsSync gets try_ readFileSync ret
                            getRandomCdpPort writeFileSync].
  rewrite Hf. cbv beta iota. rewrite Hf. cbv beta iota.
  destruct (readable f) eqn:R.
  - destruct Hbad as [Hr | Hp]; [congruence|]. rewrite Hp. cbv beta iota.
    cbn [fs log_op]. rewrite Hf. fold p.
    split; intros Hw; rewrite Hw; cbn [fs set_fs fst snd]; unfold update_fs;
      [split; [reflexivity|] |]; cbn; rewrite ?R; reflexivity.
  - cbv beta iota. cbn [fs log_op]. rewrite Hf. fold p.
    split; intros Hw; rewrite Hw; cbn [fs set_fs fst snd]; unfold update_fs;
      [split; [reflexivity|] |]; cbn; rewrite ?R; reflexivity.
Qed.

Lemma getCdpPort_unusable_file_witness :
  fs (world_of writeonly_port_fs) PortFile = Some (mkFile "23456" false true true) /\
  (readable (mkFile "23456" false true true) = false \/
   positive_port (parseInt (trim (content (mkFile "23456" false true true)))) = None) /\
  fst (getCdpPort oracle_half (world_of writeonly_port_fs)) = Ok 37500%Z.
Proof.
  assert (H1 : fs (world_of writeonly_port_fs) PortFile = Some (mkFile "23456" false true true))
    by reflexivity.
  assert (H2 : readable (mkFile "23456" false true true) = false \/
               positive_port (parseInt (trim (content (mkFile "23456" false true true))))
               = None) by (left; reflexivity).
  split; [exact H1|]. split; [exact H2|].
  exact (proj1 (proj1 (proj2 (getCdpPort_unusable_file oracle_half
                                 (world_of writeonly_port_fs) _ H1 H2)) eq_refl)).
Defined.

(** ** The shutdown path, its state and its operations *)

Lemma closeBrowser_stages (O : oracle) :
  closeBrowser O =
  (cdp <- gets cdpPort ;;
   sh <- gets hasStagehand ;;
   close_stagehand_stage O sh ;;
   cp <- gets hasChromeProcess ;;
   st <- gets weStartedChrome ;;
   close_chrome_stage O cp st ;;
   close_cdp_stage O cdp).
Proof. reflexivity. Qed.

Section StateFacts.
Context {A B : Type}.

Lemma kc_ret (a : A) : keeps_ctl (ret a).
Proof. intros w. reflexivity. Qed.
Lemma kc_gets (f : world -> A) : keeps_ctl (gets f).
Proof. intros w. reflexivity. Qed.
Lemma kc_bind (m : M A) (k : A -> M B) :
  keeps_ctl m -> (forall a, keeps_ctl (k a)) -> keeps_ctl (bind m k).
Proof.
  intros Hm Hk w. unfold bind. specialize (Hm w).
  destruct (m w) as [[a|e] w']; simpl in *; [rewrite Hk|]; exact Hm.
Qed.
Lemma kc_try (m : M A) (h : jsval -> M A) :
  keeps_ctl m -> (forall e, keeps_ctl (h e)) -> keeps_ctl (try_ m h).
Proof.
  intros Hm Hh w. unfold try_. specialize (Hm w).
  destruct (m w) as [[a|e] w']; simpl in *; [|rewrite Hh]; exact Hm.
Qed.
Lemma kc_finally (m : M A) (fin : M unit) :
  keeps_ctl m -> keeps_ctl fin -> keeps_ctl (finally_ m fin).
Proof.
  intros Hm Hf w. unfold finally_. specialize (Hm w).
  destruct (m w) as [r w1]. specialize (Hf w1). destruct (fin w1) as [r2 w2].
  simpl in *. congruence.
Qed.
Lemma kc_if (b : bool) (m1 m2 : M A) :
  keeps_ctl m1 -> keeps_ctl m2 -> keeps_ctl (if b then m1 else m2).
Proof. destruct b; auto. Qed.

Lemma oo_ret P (a : A) : ops_only P (ret a).
Proof. intros w. exists []. rewrite app_nil_r. split; reflexivity. Qed.
Lemma oo_gets P (f : world -> A) : ops_only P (gets f).
Proof. intros w. exists []. rewrite app_nil_r. split; reflexivity. Qed.
Lemma oo_bind P (m : M A) (k : A -> M B) :
  ops_only P m -> (forall a, ops_only P (k a)) -> ops_only P (bind m k).
Proof.
  intros Hm Hk w. unfold bind. destruct (Hm w) as (t1 & E1 & P1).
  destruct (m w) as [[a|e] w']; simpl in *.
  - destruct (Hk a w') as (t2 & E2 & P2). exists (t1 ++ t2)%list.
    rewrite E2, E1, app_assoc, forallb_app, P1, P2. split; reflexivity.
  - exists t1. split; assumption.
Qed.
Lemma oo_try P (m : M A) (h : jsval -> M A) :
  ops_only P m -> (forall e, ops_only P (h e)) -> ops_only P (try_ m h).
Proof.
  intros Hm Hh w. unfold try_. destruct (Hm w) as (t1 & E1 & P1).
  destruct (m w) as [[a|e] w']; simpl in *.
  - exists t1. split; assumption.
  - destruct (Hh e w') as (t2 & E2 & P2). exists (t1 ++ t2)%list.
    rewrite E2, E1, app_assoc, forallb_app, P1, P2. split; reflexivity.
Qed.
Lemma oo_finally P (m : M A) (fin : M unit) :
  ops_only P m -> ops_only P fin -> ops_only P (finally_ m fin).
Proof.
  intros Hm Hf w. unfold finally_. destruct (Hm w) as (t1 & E1 & P1).
  destruct (m w) as [r w1]. destruct (Hf w1) as (t2 & E2 & P2).
  destruct (fin w1) as [r2 w2]. simpl in *. exists (t1 ++ t2)%list.
  rewrite E2, E1, app_assoc, forallb_app, P1, P2. split; reflexivity.
Qed.
Lemma oo_if P (b : bool) (m1 m2 : M A) :
  ops_only P m1 -> ops_only P m2 -> ops_only P (if b then m1 else m2).
Proof. destruct b; auto. Qed.

End StateFacts.

Lemma kc_callU O o : keeps_ctl (callU O o).
Proof. intros w. reflexivity. Qed.
Lemma kc_callB O o : keeps_ctl (callB O o).
Proof. intros w. reflexivity. Qed.
Lemma kc_callS O o : keeps_ctl (callS O o).
Proof. intros w. reflexivity. Qed.
Lemma kc_emit o : keeps_ctl (emit o).
Proof. intros w. reflexivity. Qed.
Lemma kc_logError p e : keeps_ctl (logError p e).
Proof. intros w. reflexivity. Qed.
Lemma kc_readFileSync p : keeps_ctl (readFileSync p).
Proof. intros w. unfold readFileSync. destruct (fs w p); [destruct (readable f)|]; reflexivity. Qed.
Lemma kc_unlinkSync p : keeps_ctl (unlinkSync p).
Proof. intros w. unfold unlinkSync. destruct (fs w p); [destruct (deletable f)|]; reflexivity. Qed.

Lemma oo_callU P O o : P o = true -> ops_only P (callU O o).
Proof. intros H w. exists [o]. simpl. rewrite H. split; reflexivity. Qed.
Lemma oo_callB P O o : P o = true -> ops_only P (callB O o).
Proof. intros H w. exists [o]. simpl. rewrite H. split; reflexivity. Qed.
Lemma oo_callS P O o : P o = true -> ops_only P (callS O o).
Proof. intros H w. exists [o]. simpl. rewrite H. split; reflexivity. Qed.
Lemma oo_logError P p e : P (OpConsoleError (p ++ " " ++ errMsg e)) = true ->
  ops_only P (logError p e).
Proof.
  intros H w. exists [OpConsoleError (p ++ " " ++ errMsg e)].
  split; [reflexivity|]. cbn [forallb]. rewrite H. reflexivity.
Qed.
Lemma oo_readFileSync P p : ops_only P (readFileSync p).
Proof.
  intros w. exists []. rewrite app_nil_r. unfold readFileSync.
  destruct (fs w p); [destruct (readable f)|]; split; reflexivity.
Qed.
Lemma oo_unlinkSync P p : ops_only P (unlinkSync p).
Proof.
  intros w. exists []. rewrite app_nil_r. unfold unlinkSync.
  destruct (fs w p); [destruct (deletable f)|]; split; reflexivity.
Qed.

Ltac ctl_step :=
  match goal with
  | |- keeps_ctl (bind _ _) => apply kc_bind; [ | intro ]
  | |- keeps_ctl (try_ _ _) => apply kc_try; [ | intro ]
  | |- keeps_ctl (finally_ _ _) => apply kc_finally
  | |- keeps_ctl (if _ then _ else _) => apply kc_if
  | |- keeps_ctl (ret _) => apply kc_ret
  | |- keeps_ctl (gets _) => apply kc_gets
  | |- keeps_ctl (existsSync _) => apply kc_gets
  | |- keeps_ctl (callU _ _) => apply kc_callU
  | |- keeps_ctl (callB _ _) => apply kc_callB
  | |- keeps_ctl (callS _ _) => apply kc_callS
  | |- keeps_ctl (logError _ _) => apply kc_logError
  | |- keeps_ctl (readFileSync _) => apply kc_readFileSync
  | |- keeps_ctl (unlinkSync _) => apply kc_unlinkSync
  | |- keeps_ctl (unlink_if_exists _) => unfold unlink_if_exists
  | |- keeps_ctl (kill_by_pid _ _) => unfold kill_by_pid
  | |- keeps_ctl (cdp_shutdown _ _) => unfold cdp_shutdown
  | |- ops_only _ (bind _ _) => apply oo_bind; [ | intro ]
  | |- ops_only _ (try_ _ _) => apply oo_try; [ | intro ]
  | |- ops_only _ (finally_ _ _) => apply oo_finally
  | |- ops_only _ (if _ then _ else _) => apply oo_if
  | |- ops_only _ (ret _) => apply oo_ret
  | |- ops_only _ (gets _) => apply oo_gets
  | |- ops_only _ (existsSync _) => apply oo_gets
  | |- ops_only _ (callU _ _) => apply oo_callU; reflexivity
  | |- ops_only _ (callB _ _) => apply oo_callB; reflexivity
  | |- ops_only _ (callS _ _) => apply oo_callS; reflexivity
  | |- ops_only _ (logError _ _) => apply oo_logError; reflexivity
  | |- ops_only _ (readFileSync _) => apply oo_readFileSync
  | |- ops_only _ (unlinkSync _) => apply oo_unlinkSync
  | |- ops_only _ (unlink_if_exists _) => unfold unlink_if_exists
  | |- ops_only _ (kill_by_pid _ _) => unfold kill_by_pid
  | |- ops_only _ (cdp_shutdown _ _) => unfold cdp_shutdown
  end.

Lemma close_cdp_stage_ctl (O : oracle) (cdp : Z) : keeps_ctl (close_cdp_stage O cdp).
Proof. unfold close_cdp_stage. repeat ctl_step. Qed.

Lemma close_stagehand_stage_run (O : oracle) (sh : bool) (w : world) :
  exists w1, close_stagehand_stage O sh w = (Ok tt, w1) /\
    ctl w1 = (if sh then (false, hasChromeProcess w, weStartedChrome w, blocked w, cdpPort w)
              else ctl w).
Proof.
  destruct sh; unfold close_stagehand_stage.
  - unfold try_, bind, callU, logError, emit, modify.
    destruct (o_unit O OpStagehandClose (log_op OpStagehandClose w)).
    + eexists; split; reflexivity.
    + eexists; split; reflexivity.
  - exists w. split; reflexivity.
Qed.

Lemma close_chrome_stage_run (O : oracle) (cp st : bool) (w : world) :
  exists w1, close_chrome_stage O cp st w = (Ok tt, w1) /\
    ctl w1 = (if cp && st then (hasStagehand w, false, false, blocked w, cdpPort w)
              else ctl w) /\
    (cp && st = false -> trace w1 = trace w).
Proof.
  unfold close_chrome_stage. destruct (cp && st).
  - assert (Hk : keeps_ctl
      (try_ (callU O (OpKill "SIGTERM") ;; callU O (OpSleep 1000) ;;
             alive <- callB O OpExitCodeIsNull ;;
             if alive then callU O (OpKill "SIGKILL") else ret tt)
            (logError "Error killing Chrome:"))) by repeat ctl_step.
    assert (Hn : no_throw
      (try_ (callU O (OpKill "SIGTERM") ;; callU O (OpSleep 1000) ;;
             alive <- callB O OpExitCodeIsNull ;;
             if alive then callU O (OpKill "SIGKILL") else ret tt)
            (logError "Error killing Chrome:")))
      by (apply nt_try; intro; apply nt_modify).
    unfold bind at 1. specialize (Hk w). destruct (Hn w) as [[] Ha].
    destruct (try_ _ _ w) as [r w1]. simpl in Ha, Hk. subst r.
    eexists; split; [reflexivity|]. split; [|discriminate].
    unfold ctl in *. cbn. injection Hk as H1 _ _ H4 H5. rewrite H1, H4, H5. reflexivity.
  - exists w. split; [reflexivity|]. split; reflexivity.
Qed.

(** [closeBrowser] always ends with no Stagehand instance; it forgets the
    Chrome child process exactly when this process had started it (both
    [chromeProcess] and [weStartedChrome] set), and leaves the blocklist and
    the CDP port as they were, whatever fails on the way. *)
Theorem closeBrowser_state (O : oracle) (w : world) :
  let w' := snd (closeBrowser O w) in
  hasStagehand w' = false /\
  (if hasChromeProcess w && weStartedChrome w
   then hasChromeProcess w' = false /\ weStartedChrome w' = false
   else hasChromeProcess w' = hasChromeProcess w /\ weStartedChrome w' = weStartedChrome w) /\
  blocked w' = blocked w /\ cdpPort w' = cdpPort w.
Proof.
  intros w'. unfold w'. clear w'. rewrite closeBrowser_stages.
  cbv beta iota delta [bind gets].
  destruct (close_stagehand_stage_run O (hasStagehand w) w) as (w1 & E1 & C1).
  rewrite E1. cbv beta iota.
  destruct (close_chrome_stage_run O (hasChromeProcess w1) (weStartedChrome w1) w1)
    as (w2 & E2 & C2 & _).
  rewrite E2. cbv beta iota.
  pose proof (close_cdp_stage_ctl O (cdpPort w) w2) as C3.
  unfold ctl in C1, C2, C3.
  injection C3 as K1 K2 K3 K4 K5. rewrite K1, K2, K3, K4, K5.
  destruct (hasChromeProcess w1 && weStartedChrome w1) eqn:Ec;
    injection C2 as G1 G2 G3 G4 G5; rewrite G1, G2, G3, G4, G5;
    destruct (hasStagehand w) eqn:Es; injection C1 as H1 H2 H3 H4 H5;
    rewrite ?H1, ?H4, ?H5; rewrite H2, H3 in Ec; rewrite ?H2, ?H3;
    destruct (hasChromeProcess w), (weStartedChrome w); simpl in *;
    repeat split; congruence.
Qed.

(** A [SIGINT] or [SIGTERM] exits with code 0 after [closeBrowser]: the PID
    file is removed unless its deletion is refused, and, unlike the [close]
    command, the port file (so the next run reuses the port) and the profile
    are left as they were. *)
Theorem on_signal_spec (O : oracle) (w : world) :
  fst (on_signal O w) = Ok 0%Z /\
  fs (snd (on_signal O w)) PidFile = removed_if_deletable (fs w PidFile) /\
  fs (snd (on_signal O w)) PortFile = fs w PortFile /\
  fs (snd (on_signal O w)) ProfileDir = fs w ProfileDir /\
  fs (snd (on_signal O w)) DownloadsDir = fs w DownloadsDir.
Proof.
  unfold on_signal, bind. destruct (closeBrowser_no_throw O w) as [u Hu].
  pose proof (closeBrowser_fs O w) as Hf.
  destruct (closeBrowser O w) as [r w1]. simpl in Hu, Hf. subst r.
  cbn [ret fst snd]. rewrite !Hf. unfold unlinkG. repeat split; reflexivity.
Qed.

(** ** [main] and the commands *)

Lemma main_after_dispatch (parse : string -> option URL)
  (schema_of_json : string -> exc (option (list (string * string))))
  (O : oracle) (args : list string) (w : world)
  (Hprep : o_unit O OpPrepareProfile (log_op OpPrepareProfile w) = None) :
  main parse schema_of_json O args w =
  match dispatch parse schema_of_json O args (log_op OpPrepareProfile w) with
  | (Ok r, w1) => (Ok (0%Z, Stdout r), w1)
  | (Throw e, w1) =>
      (Ok (1%Z, Stderr (failure (errMsg e))), snd (closeBrowser O w1))
  end.
Proof.
  unfold main. unfold bind at 1, callU at 1. rewrite Hprep. unfold try_, bind at 1.
  destruct (dispatch parse schema_of_json O args (log_op OpPrepareProfile w))
    as [[r|e] w1]; [reflexivity|].
  unfold bind. destruct (closeBrowser_no_throw O w1) as [u Hu].
  destruct (closeBrowser O w1) as [c w2]. simpl in Hu. subst c. reflexivity.
Qed.

(** Unless [prepareChromeProfile] itself throws (then [main] rejects with
    that error and does nothing else), [main] always settles: with exit
    code 0 and the result object on stdout, or with exit code 1 and
    [{success: false, error}] on stderr. *)
Theorem main_outcome (parse : string -> option URL)
  (schema_of_json : string -> exc (option (list (string * string))))
  (O : oracle) (args : list string) (w : world) :
  match o_unit O OpPrepareProfile (log_op OpPrepareProfile w) with
  | Some e => main parse schema_of_json O args w = (Throw e, log_op OpPrepareProfile w)
  | None =>
      (exists r, fst (main parse schema_of_json O args w) = Ok (0%Z, Stdout r)) \/
      (exists msg, fst (main parse schema_of_json O args w)
                   = Ok (1%Z, Stderr (failure msg)))
  end.
Proof.
  destruct (o_unit O OpPrepareProfile (log_op OpPrepareProfile w)) as [e|] eqn:E.
  - unfold main, bind, callU. rewrite E. reflexivity.
  - rewrite (main_after_dispatch parse schema_of_json O args w E).
    destruct (dispatch parse schema_of_json O args (log_op OpPrepareProfile w))
      as [[r|e] w1]; [left; exists r | right; exists (errMsg e)]; reflexivity.
Qed.

(** A command line [main] rejects before any browser work: a command that
    needs an argument given none, no command at all, or an unknown command.
    [main] then runs [closeBrowser] and exits with code 1, the usage or
    unknown-command message on stderr; the final state is exactly that of
    [closeBrowser] after the profile preparation. *)
Theorem main_rejects_command_line (parse : string -> option URL)
  (schema_of_json : string -> exc (option (list (string * string))))
  (O : oracle) (w : world)
  (Hprep : o_unit O OpPrepareProfile (log_op OpPrepareProfile w) = None) :
  let after_close := snd (closeBrowser O (log_op OpPrepareProfile w)) in
  let rejected msg := (Ok (1%Z, Stderr (failure msg)), after_close) in
  main parse schema_of_json O ["navigate"] w = rejected "Usage: browser navigate <url>" /\
  main parse schema_of_json O ["act"] w
    = rejected ("Usage: browser act " ++ dq ++ "<action>" ++ dq) /\
  main parse schema_of_json O ["extract"] w
    = rejected ("Usage: browser extract " ++ dq ++ "<instruction>" ++ dq) /\
  main parse schema_of_json O ["observe"] w
    = rejected ("Usage: browser observe " ++ dq ++ "<query>" ++ dq) /\
  main parse schema_of_json O [] w = rejected (unknown_command_msg "undefined") /\
  (forall command rest,
     ~ In command ["navigate"; "act"; "extract"; "observe"; "screenshot"; "close"] ->
     main parse schema_of_json O (command :: rest) w
     = rejected (unknown_command_msg command)).
Proof.
  intros after_close rejected.
  repeat split; try (rewrite (main_after_dispatch _ _ _ _ _ Hprep); reflexivity).
  intros command rest Hn. rewrite (main_after_dispatch _ _ _ _ _ Hprep).
  assert (Hne : forall c, In c ["navigate"; "act"; "extract"; "observe"; "screenshot"; "close"] ->
                          String.eqb command c = false).
  { intros c Hc. apply String.eqb_neq. intros ->. contradiction. }
  unfold dispatch.
  rewrite (Hne "navigate"), (Hne "act"), (Hne "extract"), (Hne "observe"),
    (Hne "screenshot"), (Hne "close") by (simpl; tauto).
  reflexivity.
Qed.

Lemma main_rejects_command_line_witness :
  o_unit oracle0 OpPrepareProfile (log_op OpPrepareProfile (world_of fresh_fs)) = None /\
  main url_lite no_json oracle0 ["navigate"] (world_of fresh_fs)
  = (Ok (1%Z, Stderr (failure "Usage: browser navigate <url>")),
     snd (closeBrowser oracle0 (log_op OpPrepareProfile (world_of fresh_fs)))).
Proof.
  assert (H : o_unit oracle0 OpPrepareProfile (log_op OpPrepareProfile (world_of fresh_fs))
              = None) by reflexivity.
  split; [exact H|].
  exact (proj1 (main_rejects_command_line url_lite no_json oracle0 (world_of fresh_fs) H)).
Defined.

(** [JSON.parse] of the schema argument runs outside [extract]'s own
    [try]: a non-empty schema argument that is not valid JSON makes [main]
    exit with code 1 and the parse error on stderr, without starting the
    browser (the final state is that of [closeBrowser] after the profile
    preparation); an unrecognised field type, in contrast, only drops the
    schema. *)
Theorem main_extract_bad_json (parse : string -> option URL)
  (schema_of_json : string -> exc (option (list (string * string))))
  (O : oracle) (w : world) (instruction s : string) (more : list string) (e : jsval)
  (Hprep : o_unit O OpPrepareProfile (log_op OpPrepareProfile w) = None)
  (Hs : s <> EmptyString) (Hj : schema_of_json s = Throw e) :
  main parse schema_of_json O ("extract" :: instruction :: s :: more) w
  = (Ok (1%Z, Stderr (failure (errMsg e))),
     snd (closeBrowser O (log_op OpPrepareProfile w))).
Proof.
  rewrite (main_after_dispatch _ _ _ _ _ Hprep). unfold dispatch.
  cbn [String.eqb Ascii.eqb Bool.eqb andb].
  apply String.eqb_neq in Hs. rewrite Hs. unfold bind at 1, lift_exc. rewrite Hj.
  reflexivity.
Qed.

Lemma main_extract_bad_json_witness :
  o_unit oracle0 OpPrepareProfile (log_op OpPrepareProfile (world_of fresh_fs)) = None /\
  "{price:number}" <> EmptyString /\
  json_empty_only "{price:number}" = Throw (JError "Unexpected token in JSON at position 0") /\
  main url_lite json_empty_only oracle0 ["extract"; "get price"; "{price:number}"]
    (world_of fresh_fs)
  = (Ok (1%Z, Stderr (failure "Unexpected token in JSON at position 0")),
     snd (closeBrowser oracle0 (log_op OpPrepareProfile (world_of fresh_fs)))).
Proof.
  assert (H1 : o_unit oracle0 OpPrepareProfile (log_op OpPrepareProfile (world_of fresh_fs))
               = None) by reflexivity.
  assert (H2 : "{price:number}" <> EmptyString) by discriminate.
  assert (H3 : json_empty_only "{price:number}"
               = Throw (JError "Unexpected token in JSON at position 0")) by reflexivity.
  split; [exact H1|]. split; [exact H2|]. split; [exact H3|].
  exact (main_extract_bad_json url_lite json_empty_only oracle0 (world_of fresh_fs)
           "get price" "{price:number}" [] _ H1 H2 H3).
Defined.

(** A blocked [navigate] or [act] is not an error of the process: with a
    blocklist of non-empty entries, [main] prints the
    [{success: false, error: BLOCKED ...}] object on stdout and exits with
    code 0, and nothing but the profile preparation happens.  For [act] the
    whole rest of the command line, joined with spaces, is checked. *)
Theorem main_blocked_exit_zero (parse : string -> option URL)
  (schema_of_json : string -> exc (option (list (string * string))))
  (O : oracle) (w : world)
  (HL : Forall (fun e => e <> EmptyString) (blocked w))
  (Hprep : o_unit O OpPrepareProfile (log_op OpPrepareProfile w) = None) :
  (forall url rest d, getBlockedDomain parse (blocked w) url = Ok (Some d) ->
     main parse schema_of_json O ("navigate" :: url :: rest) w
     = (Ok (0%Z, Stdout (failure (blocked_nav_msg d))), log_op OpPrepareProfile w)) /\
  (forall a rest d,
     actionReferencesBlockedDomain parse (blocked w) (String.concat " " (a :: rest))
       = Ok (Some d) ->
     main parse schema_of_json O ("act" :: a :: rest) w
     = (Ok (0%Z, Stdout (failure (blocked_act_msg d))), log_op OpPrepareProfile w)).
Proof.
  split.
  - intros url rest d H. rewrite (main_after_dispatch _ _ _ _ _ Hprep).
    change (dispatch parse schema_of_json O ("navigate" :: url :: rest))
      with (navigate parse O url).
    rewrite (navigate_blocked parse O url d (log_op OpPrepareProfile w) HL H).
    reflexivity.
  - intros a rest d H. rewrite (main_after_dispatch _ _ _ _ _ Hprep).
    change (dispatch parse schema_of_json O ("act" :: a :: rest))
      with (act parse O (String.concat " " (a :: rest))).
    rewrite (act_blocked parse O _ d (log_op OpPrepareProfile w) HL H).
    reflexivity.
Qed.

Lemma main_blocked_exit_zero_witness :
  Forall (fun e => e <> EmptyString) (blocked (world_of fresh_fs)) /\
  o_unit oracle0 OpPrepareProfile (log_op OpPrepareProfile (world_of fresh_fs)) = None /\
  main url_lite no_json oracle0 ["act"; "open"; "https://www.chase.com/"] (world_of fresh_fs)
  = (Ok (0%Z, Stdout (failure (blocked_act_msg "chase.com"))),
     log_op OpPrepareProfile (world_of fresh_fs)).
Proof.
  assert (H1 : Forall (fun e => e <> EmptyString) (blocked (world_of fresh_fs)))
    by exact BLOCKED_DOMAINS_nonempty.
  assert (H2 : o_unit oracle0 OpPrepareProfile (log_op OpPrepareProfile (world_of fresh_fs))
               = None) by reflexivity.
  split; [exact H1|]. split; [exact H2|].
  apply (proj2 (main_blocked_exit_zero url_lite no_json oracle0 (world_of fresh_fs) H1 H2)).
  vm_compute. reflexivity.
Defined.




(** When the [networkidle] load of a page that is not blocked fails,
    [navigate] retries once with [domcontentloaded] (15 s): if that load
    succeeds, so does the navigation, through the 3 s render wait and the
    screenshot; if it fails too, the result reports the second load's
    error, and nothing after the loads is attempted. *)
Theorem navigate_load_fallback (parse : string -> option URL) (O : oracle)
  (url : string) (w : world) (e1 : jsval) (load2 : option jsval) (shot : string)
  (Hnb : exists b, getBlockedDomain parse (blocked w) url = Ok b /\ truthy b = false)
  (Hinit : forall v, o_unit O OpInitBrowser v = None)
  (Hpage : forall v, o_unit O OpFirstPage v = None)
  (Hload1 : forall v, o_unit O (OpGoto url "networkidle" 30000) v = Some e1)
  (Hload2 : forall v, o_unit O (OpGoto url "domcontentloaded" 15000) v = load2)
  (Hsleep : forall v, o_unit O (OpSleep 3000) v = None)
  (Hshot : forall v, o_str O OpTakeScreenshot v = Ok shot) :
  let loads := [OpInitBrowser; OpFirstPage; OpGoto url "networkidle" 30000;
                OpGoto url "domcontentloaded" 15000] in
  match load2 with
  | None =>
      fst (navigate parse O url w)
        = Ok (mkResult true (Some ("Successfully navigated to " ++ url)) None (Some shot)) /\
      trace (snd (navigate parse O url w))
        = (trace w ++ loads ++ [OpSleep 3000; OpTakeScreenshot])%list
  | Some e2 =>
      fst (navigate parse O url w) = Ok (failure (errMsg e2)) /\
      trace (snd (navigate parse O url w)) = (trace w ++ loads)%list
  end.
Proof.
  intros loads. destruct Hnb as (b & Hb & Ht).
  unfold navigate.
  cbv beta iota zeta delta [bind gets lift_exc catch_result try_ initBrowser callU
                            takeScreenshot callS ret].
  rewrite Hb. cbv beta iota. rewrite Ht.
  repeat (first [rewrite Hinit | rewrite Hpage | rewrite Hload1 | rewrite Hload2
                | rewrite Hsleep | rewrite Hshot]; cbv beta iota).
  destruct load2 as [e2|]; cbv beta iota.
  - split; [reflexivity|]. subst loads. cbn [snd trace log_op]. rewrite <- ?app_assoc. reflexivity.
  - rewrite ?Hsleep; cbv beta iota; rewrite ?Hshot; cbv beta iota.
    split; [reflexivity|]. subst loads. cbn [snd trace log_op]. rewrite <- ?app_assoc. reflexivity.
Qed.

Lemma navigate_load_fallback_witness :
  (exists b, getBlockedDomain url_lite (blocked (world_of fresh_fs)) "https://example.com/"
               = Ok b /\ truthy b = false) /\
  fst (navigate url_lite busy_page_oracle "https://example.com/" (world_of fresh_fs))
    = Ok (mkResult true (Some ("Successfully navigated to " ++ "https://example.com/"))
                   None (Some "shot.png")).
Proof.
  assert (Hnb : exists b, getBlockedDomain url_lite (blocked (world_of fresh_fs))
                            "https://example.com/" = Ok b /\ truthy b = false)
    by (exists None; split; [vm_compute; reflexivity | reflexivity]).
  split; [exact Hnb|].
  exact (proj1 (navigate_load_fallback url_lite busy_page_oracle "https://example.com/"
                  (world_of fresh_fs) (JError "Timeout 30000ms exceeded") None "shot.png" Hnb
                  (fun _ => eq_refl) (fun _ => eq_refl) (fun _ => eq_refl)
                  (fun _ => eq_refl) (fun _ => eq_refl) (fun _ => eq_refl))).
Defined.

(* ================================================================= *)
(** ** [initBrowser], step by step *)

Import Launch.


Section LaunchLaws.
Context {A B : Type}.
Context (R : world -> world -> Prop).
Hypothesis R_refl : forall w, R w w.
Hypothesis R_trans : forall w1 w2 w3, R w1 w2 -> R w2 w3 -> R w1 w3.

Lemma bp_ret (a : A) : bpre R (iret a).
Proof. intros iw. apply R_refl. Qed.
Lemma bp_throw (e : jsval) : bpre R (@ithrow A e).
Proof. intros iw. apply R_refl. Qed.
Lemma bp_gets (f : world -> A) : bpre R (igets f).
Proof. intros iw. apply R_refl. Qed.
Lemma bp_emit o : bpre R (iemit o).
Proof. intros iw. apply R_refl. Qed.
Lemma bp_bind (m : IM A) (k : A -> IM B) :
  bpre R m -> (forall a, bpre R (k a)) -> bpre R (ibind m k).
Proof.
  intros Hm Hk iw. unfold ibind. specialize (Hm iw).
  destruct (m iw) as [[a|e] iw']; simpl in *; [eapply R_trans; [exact Hm | apply Hk]|exact Hm].
Qed.
Lemma bp_try (m : IM A) (h : jsval -> IM A) :
  bpre R m -> (forall e, bpre R (h e)) -> bpre R (itry m h).
Proof.
  intros Hm Hh iw. unfold itry. specialize (Hm iw).
  destruct (m iw) as [[a|e] iw']; simpl in *; [exact Hm|eapply R_trans; [exact Hm | apply Hh]].
Qed.
Lemma bp_if (b : bool) (m1 m2 : IM A) :
  bpre R m1 -> bpre R m2 -> bpre R (if b then m1 else m2).
Proof. destruct b; auto. Qed.
Lemma bp_modify (f : world -> world) : (forall w, R w (f w)) -> bpre R (imodify f).
Proof. intros H iw. apply H. Qed.
Lemma bp_on_base (m : M A) : (forall w, R w (snd (m w))) -> bpre R (on_base m).
Proof. intros H iw. unfold on_base. specialize (H (base iw)). destruct (m (base iw)); exact H. Qed.

Lemma io_ret P (a : A) : iops_only P (iret a).
Proof. intros iw. exists []. rewrite app_nil_r. split; reflexivity. Qed.
Lemma io_throw P (e : jsval) : iops_only P (@ithrow A e).
Proof. intros iw. exists []. rewrite app_nil_r. split; reflexivity. Qed.
Lemma io_gets P (f : world -> A) : iops_only P (igets f).
Proof. intros iw. exists []. rewrite app_nil_r. split; reflexivity. Qed.
Lemma io_modify P f : iops_only P (imodify f).
Proof. intros iw. exists []. rewrite app_nil_r. split; reflexivity. Qed.
Lemma io_on_base P (m : M A) : iops_only P (on_base m).
Proof.
  intros iw. exists []. rewrite app_nil_r. unfold on_base.
  destruct (m (base iw)). split; reflexivity.
Qed.
Lemma io_bind P (m : IM A) (k : A -> IM B) :
  iops_only P m -> (forall a, iops_only P (k a)) -> iops_only P (ibind m k).
Proof.
  intros Hm Hk iw. unfold ibind. destruct (Hm iw) as (t1 & E1 & P1).
  destruct (m iw) as [[a|e] iw']; simpl in *.
  - destruct (Hk a iw') as (t2 & E2 & P2). exists (t1 ++ t2)%list.
    rewrite E2, E1, app_assoc, forallb_app, P1, P2. split; reflexivity.
  - exists t1. split; assumption.
Qed.
Lemma io_try P (m : IM A) (h : jsval -> IM A) :
  iops_only P m -> (forall e, iops_only P (h e)) -> iops_only P (itry m h).
Proof.
  intros Hm Hh iw. unfold itry. destruct (Hm iw) as (t1 & E1 & P1).
  destruct (m iw) as [[a|e] iw']; simpl in *.
  - exists t1. split; assumption.
  - destruct (Hh e iw') as (t2 & E2 & P2). exists (t1 ++ t2)%list.
    rewrite E2, E1, app_assoc, forallb_app, P1, P2. split; reflexivity.
Qed.
Lemma io_if P (b : bool) (m1 m2 : IM A) :
  iops_only P m1 -> iops_only P m2 -> iops_only P (if b then m1 else m2).
Proof. destruct b; auto. Qed.

End LaunchLaws.

Section LaunchSteps.
Context (OI : ioracle) (root : string).
Context (R : world -> world -> Prop).
Hypothesis R_refl : forall w, R w w.
Hypothesis R_trans : forall w1 w2 w3, R w1 w2 -> R w2 w3 -> R w1 w3.

Lemma bp_callU o : bpre R (icallU OI o).
Proof. intros iw. apply R_refl. Qed.
Lemma bp_callB o : bpre R (icallB OI o).
Proof. intros iw. apply R_refl. Qed.
Lemma bp_callS o : bpre R (icallS OI o).
Proof. intros iw. apply R_refl. Qed.
Lemma bp_set_page : bpre R set_page.
Proof. intros iw. apply R_refl. Qed.
Lemma bp_wait_page n : bpre R (wait_page_ready OI n).
Proof.
  induction n as [|n IH]; simpl.
  - apply bp_ret; exact R_refl.
  - apply bp_bind; [exact R_trans | | intros []; [apply bp_ret; exact R_refl | exact IH]].
    apply bp_try; [exact R_trans | |].
    + apply bp_bind; [exact R_trans | apply bp_callU | intros; apply bp_ret; exact R_refl].
    + intros e. apply bp_bind; [exact R_trans | apply bp_emit; exact R_refl
                               | intros; apply bp_ret; exact R_refl].
Qed.
Lemma bp_wait_chrome n cdp :
  (forall w, R w (set_chrome (hasChromeProcess w) true w)) ->
  bpre R (wait_for_chrome OI n cdp).
Proof.
  intros H. induction n as [|n IH]; simpl.
  - apply bp_ret; exact R_refl.
  - apply bp_bind; [exact R_trans | |].
    + apply bp_try; [exact R_trans | apply bp_callB | intros; apply bp_ret; exact R_refl].
    + intros []; apply bp_bind; try exact R_trans.
      * apply bp_modify; exact H.
      * intros; apply bp_ret; exact R_refl.
      * apply bp_emit; exact R_refl.
      * intros; exact IH.
Qed.

End LaunchSteps.

Lemma io_callU OI P o : P o = true -> iops_only P (icallU OI o).
Proof. intros H iw. exists [o]. simpl. rewrite H. split; reflexivity. Qed.
Lemma io_callB OI P o : P o = true -> iops_only P (icallB OI o).
Proof. intros H iw. exists [o]. simpl. rewrite H. split; reflexivity. Qed.
Lemma io_callS OI P o : P o = true -> iops_only P (icallS OI o).
Proof. intros H iw. exists [o]. simpl. rewrite H. split; reflexivity. Qed.
Lemma io_emit P o : P o = true -> iops_only P (iemit o).
Proof. intros H iw. exists [o]. simpl. rewrite H. split; reflexivity. Qed.
Lemma io_set_page P : iops_only P set_page.
Proof. intros iw. exists []. rewrite app_nil_r. split; reflexivity. Qed.

Lemma io_wait_page OI P n :
  P (IEvaluate "document.readyState") = true -> P (ISleep 100) = true ->
  iops_only P (wait_page_ready OI n).
Proof.
  intros H1 H2. induction n as [|n IH]; simpl; [apply io_ret|].
  apply io_bind; [|intros []; [apply io_ret | exact IH]].
  apply io_try; [apply io_bind; [apply io_callU; exact H1 | intros; apply io_ret]|].
  intros e. apply io_bind; [apply io_emit; exact H2 | intros; apply io_ret].
Qed.

Lemma io_downloads OI P (k : unit -> IM unit) :
  P (IMkdir DownloadsDir) = true -> (forall a, iops_only P (k a)) ->
  iops_only P (ibind (on_base (existsSync DownloadsDir))
                 (fun ex => ibind (if ex then iret tt else mkdirSync OI DownloadsDir) k)).
Proof.
  intros H Hk. apply io_bind; [apply io_on_base|]. intros ex. apply io_bind; [|exact Hk].
  destruct ex; [apply io_ret|]. intros iw. exists [IMkdir DownloadsDir].
  unfold mkdirSync. cbn [forallb]. rewrite H.
  destruct (i_unit OI (IMkdir DownloadsDir) _); split; reflexivity.
Qed.

Lemma same_stagehand_refl w : same_stagehand w w.
Proof. reflexivity. Qed.
Lemma same_stagehand_trans w1 w2 w3 :
  same_stagehand w1 w2 -> same_stagehand w2 w3 -> same_stagehand w1 w3.
Proof. unfold same_stagehand. congruence. Qed.
Lemma launch_files_refl w : launch_files w w.
Proof. split; [reflexivity | left; reflexivity]. Qed.
Lemma launch_files_trans w1 w2 w3 :
  launch_files w1 w2 -> launch_files w2 w3 -> launch_files w1 w3.
Proof.
  intros [F1 D1] [F2 D2]. split.
  - intros q H1 H2. rewrite F2, F1; auto.
  - unfold dl_grows in *. destruct D1 as [D1|[D1 D1']], D2 as [D2|[D2 D2']].
    + left; congruence.
    + rewrite D1 in D2. right; split; assumption.
    + right; split; congruence.
    + congruence.
Qed.
Lemma same_chrome_refl w : same_chrome w w.
Proof. repeat split. Qed.
Lemma same_chrome_trans w1 w2 w3 :
  same_chrome w1 w2 -> same_chrome w2 w3 -> same_chrome w1 w3.
Proof. unfold same_chrome. intuition congruence. Qed.

Lemma bind_cases {A B} (m : IM A) (k : A -> IM B) iw :
  (exists e, fst (m iw) = Throw e /\ ibind m k iw = (Throw e, snd (m iw))) \/
  (exists a, fst (m iw) = Ok a /\ ibind m k iw = k a (snd (m iw))).
Proof.
  unfold ibind. destruct (m iw) as [[a|e] iw']; [right|left]; eexists; split; reflexivity.
Qed.

Section LaunchDownloads.
Context (OI : ioracle) (R : world -> world -> Prop).
Hypothesis R_refl : forall w, R w w.
Hypothesis R_trans : forall w1 w2 w3, R w1 w2 -> R w2 w3 -> R w1 w3.
Hypothesis R_mkdir : forall w, fs w DownloadsDir = None ->
  R w (set_fs (update_fs DownloadsDir (Some new_dir) (fs w)) w).

(** [if (!existsSync(downloadsPath)) mkdirSync(downloadsPath, ...)] *)
Lemma bp_downloads (k : unit -> IM unit) :
  (forall a, bpre R (k a)) ->
  bpre R (ibind (on_base (existsSync DownloadsDir))
            (fun ex => ibind (if ex then iret tt else mkdirSync OI DownloadsDir) k)).
Proof.
  intros Hk iw. unfold ibind at 1, on_base at 1, existsSync, gets.
  cbn [fst snd base set_base].
  destruct (fs (base iw) DownloadsDir) as [f|] eqn:E.
  - exact (bp_bind R R_trans (iret tt) k (bp_ret R R_refl tt) Hk (set_base (base iw) iw)).
  - unfold ibind, mkdirSync.
    destruct (i_unit OI (IMkdir DownloadsDir) _); cbn [snd base set_base ilog].
    + apply R_refl.
    + destruct (k tt _) as [r iw2] eqn:K. eapply R_trans; [apply R_mkdir; exact E|].
      specialize (Hk tt (set_base (set_fs (update_fs DownloadsDir (Some new_dir) (fs (base iw)))
                                    (base iw)) (ilog (IMkdir DownloadsDir) (set_base (base iw) iw)))).
      rewrite K in Hk. exact Hk.
Qed.

End LaunchDownloads.

Lemma wait_page_base OI n iw : base (snd (wait_page_ready OI n iw)) = base iw.
Proof.
  symmetry. apply (bp_wait_page OI (@eq world)); [reflexivity | intros; congruence].
Qed.

Ltac walk :=
  repeat (match goal with
          | |- context [match ?t with _ => _ end] =>
              lazymatch t with
              | wait_page_ready _ _ _ => fail
              | context [match _ with _ => _ end] => fail
              | _ => destruct t eqn:?
              end
          end; cbn [fst snd] in *; try discriminate).

(** A [connect_stagehand] that returns leaves [stagehandInstance] set and
    the downloads directory present. *)
Lemma connect_ok OI cdp iw :
  fst (connect_stagehand OI cdp iw) = Ok tt ->
  hasStagehand (base (snd (connect_stagehand OI cdp iw))) = true /\
  fs (base (snd (connect_stagehand OI cdp iw))) DownloadsDir <> None.
Proof.
  unfold connect_stagehand.
  cbv beta iota zeta delta [ibind icallB icallS icallU imodify set_page on_base existsSync
                            gets iret mkdirSync].
  walk.
  all: destruct (wait_page_ready OI 30 _) as [r w1] eqn:W.
  all: match type of W with wait_page_ready _ _ ?x = _ =>
         pose proof (wait_page_base OI 30 x) as Wb end;
       rewrite W in Wb; cbn [snd base set_base ilog] in Wb.
  all: walk.
  all: intros _; cbn [base ilog set_base set_fs fs] in *; rewrite ?Wb in *;
       cbn [hasStagehand set_stagehand fs] in *.
  all: split; [reflexivity|].
  all: unfold update_fs; try (destruct (path_eq_dec DownloadsDir DownloadsDir); [|congruence]);
       congruence.
Qed.

Lemma probe_shape OI cdp iw :
  exists b, probe_existing OI cdp iw = (Ok b, snd (probe_existing OI cdp iw)) /\
            base (snd (probe_existing OI cdp iw)) = base iw.
Proof.
  unfold probe_existing, itry, ibind, icallB, iemit, iret.
  destruct (i_bool OI _ _) as [[|]|e]; eexists; split; reflexivity.
Qed.

Lemma init_when_set OI root iw :
  hasStagehand (base iw) = true -> Launch.initBrowser OI root iw = (Ok tt, iw).
Proof. intros H. unfold Launch.initBrowser, ibind, igets. rewrite H. reflexivity. Qed.

Lemma launch_stagehand OI root path cdp : bpre same_stagehand (launch_chrome OI root path cdp).
Proof.
  assert (Rr := same_stagehand_refl). assert (Rt := same_stagehand_trans).
  unfold launch_chrome.
  apply bp_bind; [exact Rt | intros iw; apply Rr | intros pid].
  apply bp_bind; [exact Rt | apply bp_modify; intros w; reflexivity | intros _].
  apply bp_bind; [exact Rt | | intros _].
  - destruct pid as [n|]; [destruct (Z.eqb n 0)|]; try (apply bp_ret; exact Rr).
    apply bp_bind; [exact Rt | intros iw; apply Rr | intros t].
    apply bp_on_base. intros w. unfold writeFileSync.
    destruct (fs w PidFile) as [f|]; [destruct (writable f)|]; reflexivity.
  - apply bp_bind; [exact Rt | apply bp_wait_chrome; [exact Rr | exact Rt | reflexivity] |].
    intros []; [apply bp_ret | apply bp_throw]; exact Rr.
Qed.

Lemma connect_bp OI cdp (R : world -> world -> Prop) :
  (forall w, R w w) -> (forall w1 w2 w3, R w1 w2 -> R w2 w3 -> R w1 w3) ->
  (forall w, R w (set_stagehand true w)) ->
  (forall w, fs w DownloadsDir = None ->
             R w (set_fs (update_fs DownloadsDir (Some new_dir) (fs w)) w)) ->
  bpre R (connect_stagehand OI cdp).
Proof.
  intros Rr Rt Hs Hm. unfold connect_stagehand.
  apply bp_bind; [exact Rt | apply bp_callB; exact Rr | intros _].
  apply bp_bind; [exact Rt | apply bp_callS; exact Rr | intros ws].
  apply bp_bind; [exact Rt | apply bp_callU; exact Rr | intros _].
  apply bp_bind; [exact Rt | apply bp_modify; exact Hs | intros _].
  apply bp_bind; [exact Rt | apply bp_callU; exact Rr | intros _].
  apply bp_bind; [exact Rt | apply bp_callU; exact Rr | intros _].
  apply bp_bind; [exact Rt | apply bp_set_page; exact Rr | intros _].
  apply bp_bind; [exact Rt | apply bp_callU; exact Rr | intros _].
  apply bp_bind; [exact Rt | apply bp_wait_page; [exact Rr | exact Rt] | intros _].
  apply bp_downloads; [exact Rr | exact Rt | exact Hm | intros _].
  apply bp_callU; exact Rr.
Qed.

Lemma connect_no_spawn OI cdp : iops_only (fun o => negb (is_spawn o)) (connect_stagehand OI cdp).
Proof.
  unfold connect_stagehand.
  apply io_bind; [apply io_callB; reflexivity | intros _].
  apply io_bind; [apply io_callS; reflexivity | intros ws].
  apply io_bind; [apply io_callU; reflexivity | intros _].
  apply io_bind; [apply io_modify | intros _].
  apply io_bind; [apply io_callU; reflexivity | intros _].
  apply io_bind; [apply io_callU; reflexivity | intros _].
  apply io_bind; [apply io_set_page | intros _].
  apply io_bind; [apply io_callU; reflexivity | intros _].
  apply io_bind; [apply io_wait_page; reflexivity | intros _].
  apply io_downloads; [reflexivity | intros _].
  apply io_callU; reflexivity.
Qed.

Lemma connect_init_rejected OI cdp iw e
  (Hinit : forall v, i_unit OI IStagehandInit v = Some e) :
  (fst (connect_stagehand OI cdp iw) = Throw e /\
   hasStagehand (base (snd (connect_stagehand OI cdp iw))) = true) \/
  ((exists e', fst (connect_stagehand OI cdp iw) = Throw e') /\
   hasStagehand (base (snd (connect_stagehand OI cdp iw))) = hasStagehand (base iw)).
Proof.
  unfold connect_stagehand.
  cbv beta iota zeta delta [ibind icallB icallS icallU imodify set_page on_base existsSync
                            gets iret mkdirSync].
  walk.
  all: rewrite ?Hinit in *; try discriminate.
  all: try (right; split; [eexists; reflexivity | reflexivity]).
  all: match goal with H : Some _ = Some _ |- _ => injection H as <- end.
  all: left; split; reflexivity.
Qed.

Lemma wait_chrome_fails OI n cdp iw
  (Hnever : forall v, i_bool OI (IFetch (version_url cdp)) v <> Ok true) :
  wait_for_chrome OI n cdp iw
  = (Ok false, mkIWorld (base iw) (itrace iw ++ failed_probes n (version_url cdp))
                        (hasCurrentPage iw)).
Proof.
  revert iw. induction n as [|n IH]; intros iw.
  - destruct iw. cbn. rewrite app_nil_r. reflexivity.
  - cbn [wait_for_chrome]. unfold ibind at 1, itry, icallB, iret.
    destruct (i_bool OI _ _) as [[|]|e] eqn:E.
    + exfalso. exact (Hnever _ E).
    + unfold ibind, sleep, iemit. rewrite IH.
      cbn [base itrace hasCurrentPage ilog failed_probes]. rewrite <- !app_assoc. reflexivity.
    + unfold ibind, sleep, iemit. rewrite IH.
      cbn [base itrace hasCurrentPage ilog failed_probes]. rewrite <- !app_assoc. reflexivity.
Qed.

Lemma probe_bp OI cdp (R : world -> world -> Prop) :
  (forall w, R w w) -> (forall w1 w2 w3, R w1 w2 -> R w2 w3 -> R w1 w3) ->
  bpre R (probe_existing OI cdp).
Proof.
  intros Rr Rt. unfold probe_existing.
  apply bp_try; [exact Rt | | intros; apply bp_ret; exact Rr].
  apply bp_bind; [exact Rt | apply bp_callB; exact Rr |].
  intros []; [apply bp_bind; [exact Rt | apply bp_emit; exact Rr | intros; apply bp_ret; exact Rr]
             | apply bp_ret; exact Rr].
Qed.

Lemma launch_files_launch OI root path cdp : bpre launch_files (launch_chrome OI root path cdp).
Proof.
  assert (Rr := launch_files_refl). assert (Rt := launch_files_trans).
  unfold launch_chrome.
  apply bp_bind; [exact Rt | intros iw; apply Rr | intros pid].
  apply bp_bind; [exact Rt | apply bp_modify; intros w; split; [intros; reflexivity | left; reflexivity] | intros _].
  apply bp_bind; [exact Rt | | intros _].
  - destruct pid as [n|]; [destruct (Z.eqb n 0)|]; try (apply bp_ret; exact Rr).
    apply bp_bind; [exact Rt | intros iw; apply Rr | intros t].
    apply bp_on_base. intros w. unfold writeFileSync.
    destruct (fs w PidFile) as [f|]; [destruct (writable f)|]; cbn [snd]; try apply Rr;
      (split; [intros q H1 H2; cbn [fs set_fs]; unfold update_fs;
               destruct (path_eq_dec PidFile q); [congruence | reflexivity]
              | left; cbn [fs set_fs]; unfold update_fs;
                destruct (path_eq_dec PidFile DownloadsDir); [discriminate | reflexivity]]).
  - apply bp_bind; [exact Rt | apply bp_wait_chrome; [exact Rr | exact Rt | intros w; split; [intros; reflexivity | left; reflexivity]] |].
    intros []; [apply bp_ret | apply bp_throw]; exact Rr.
Qed.

(** Once [initBrowser()] has returned, [stagehandInstance] is set, so
    the next call returns at once without touching Chrome; a call that
    found it unset has also left the downloads directory in place. *)
Theorem initBrowser_success (OI : ioracle) (root : string) (iw : iworld)
  (Hok : fst (Launch.initBrowser OI root iw) = Ok tt) :
  let iw' := snd (Launch.initBrowser OI root iw) in
  hasStagehand (base iw') = true /\
  Launch.initBrowser OI root iw' = (Ok tt, iw') /\
  (hasStagehand (base iw) = false -> fs (base iw') DownloadsDir <> None).
Proof.
  intros iw'.
  assert (Hset : hasStagehand (base iw') = true /\
                 (hasStagehand (base iw) = false -> fs (base iw') DownloadsDir <> None)).
  { subst iw'. destruct (hasStagehand (base iw)) eqn:Hsh.
    - rewrite (init_when_set OI root iw Hsh). split; [exact Hsh | discriminate].
    - revert Hok. unfold Launch.initBrowser.
      cbv beta iota zeta delta [ibind igets findLocalChrome ithrow iret]. rewrite Hsh.
      destruct (i_chrome OI _) as [c|e]; cbn [fst snd]; [|discriminate].
      destruct (negb (truthy c)); cbn [fst]; [discriminate|].
      match goal with |- context [probe_existing ?a ?b ?c] =>
        destruct (probe_shape a b c) as (b0 & Pb & _); rewrite Pb end.
      destruct b0.
      + intros Hok. destruct (connect_ok _ _ _ Hok). split; [assumption | intros _; assumption].
      + match goal with |- context [launch_chrome ?a ?b ?c ?d ?e] =>
          destruct (launch_chrome a b c d e) as [[[]|e0] w2] end; cbn [fst]; [|discriminate].
        intros Hok. destruct (connect_ok _ _ _ Hok). split; [assumption | intros _; assumption]. }
  destruct Hset as [H1 H2].
  split; [exact H1 | split; [apply init_when_set; exact H1 | exact H2]].
Qed.

Lemma initBrowser_success_witness :
  fst (Launch.initBrowser (launch_oracle (Some "/usr/bin/google-chrome") false true None)
         "/opt/agent-browse" (launch_start fresh_fs)) = Ok tt /\
  hasStagehand (base (snd (Launch.initBrowser
     (launch_oracle (Some "/usr/bin/google-chrome") false true None)
     "/opt/agent-browse" (launch_start fresh_fs)))) = true.
Proof.
  assert (Hok : fst (Launch.initBrowser (launch_oracle (Some "/usr/bin/google-chrome") false true None)
                   "/opt/agent-browse" (launch_start fresh_fs)) = Ok tt) by (vm_compute; reflexivity).
  split; [exact Hok | exact (proj1 (initBrowser_success _ _ _ Hok))].
Defined.

(** With [stagehandInstance] unset and no Chrome found (null or the
    empty path), [initBrowser()] throws [Could not find Chrome
    installation] after that lookup alone: no file, no variable and no
    process is touched. *)
Theorem initBrowser_no_chrome (OI : ioracle) (root : string) (iw : iworld) (c : option string)
  (Hsh : hasStagehand (base iw) = false)
  (Hc : forall v, i_chrome OI v = Ok c) (Hf : truthy c = false) :
  Launch.initBrowser OI root iw
  = (Throw (JError "Could not find Chrome installation"), ilog IFindChrome iw).
Proof.
  unfold Launch.initBrowser. cbv beta iota zeta delta [ibind igets findLocalChrome ithrow iret].
  rewrite Hsh, Hc, Hf. reflexivity.
Qed.

Lemma initBrowser_no_chrome_witness :
  Launch.initBrowser (launch_oracle (Some "") false false None) "/opt/agent-browse"
    (launch_start fresh_fs)
  = (Throw (JError "Could not find Chrome installation"),
     ilog IFindChrome (launch_start fresh_fs)).
Proof.
  exact (initBrowser_no_chrome (launch_oracle (Some "") false false None) "/opt/agent-browse"
           (launch_start fresh_fs) (Some "") eq_refl (fun _ => eq_refl) eq_refl).
Defined.

(** When Chrome already answers on the CDP port, [initBrowser()]
    attaches to it: it logs the reuse, never spawns a process, and leaves
    [chromeProcess], [weStartedChrome] and the PID file as they were. *)
Theorem initBrowser_attaches (OI : ioracle) (root : string) (iw : iworld) (c : option string)
  (Hsh : hasStagehand (base iw) = false)
  (Hc : forall v, i_chrome OI v = Ok c) (Ht : truthy c = true)
  (Hup : forall v, i_bool OI (IFetch (version_url (cdpPort (base iw)))) v = Ok true) :
  let iw' := snd (Launch.initBrowser OI root iw) in
  hasChromeProcess (base iw') = hasChromeProcess (base iw) /\
  weStartedChrome (base iw') = weStartedChrome (base iw) /\
  fs (base iw') PidFile = fs (base iw) PidFile /\
  exists t, itrace iw' = (itrace iw ++
                 [IFindChrome; IFetch (version_url (cdpPort (base iw)));
                  IConsoleError ("Reusing existing Chrome instance on port "
                                 ++ String_of_Z (cdpPort (base iw)))] ++ t)%list /\
            forallb (fun o => negb (is_spawn o)) t = true.
Proof.
  intros iw'.
  set (w3 := ilog (IConsoleError ("Reusing existing Chrome instance on port "
                                  ++ String_of_Z (cdpPort (base iw))))
               (ilog (IFetch (version_url (cdpPort (base iw)))) (ilog IFindChrome iw))).
  assert (E : Launch.initBrowser OI root iw = connect_stagehand OI (cdpPort (base iw)) w3).
  { unfold Launch.initBrowser.
    cbv beta iota zeta delta [ibind igets findLocalChrome ithrow iret probe_existing itry
                              icallB iemit].
    rewrite Hsh, Hc, Ht. cbn [negb]. cbv beta iota zeta. cbn [base ilog]. rewrite Hup.
    reflexivity. }
  subst iw'. rewrite E.
  assert (HC : same_chrome (base w3) (base (snd (connect_stagehand OI (cdpPort (base iw)) w3)))).
  { assert (HS : forall w, same_chrome w (set_stagehand true w)) by (intros w; repeat split).
    assert (HM : forall w, fs w DownloadsDir = None ->
                 same_chrome w (set_fs (update_fs DownloadsDir (Some new_dir) (fs w)) w)).
    { intros w _. unfold same_chrome. cbn [fs set_fs]. unfold update_fs.
      destruct (path_eq_dec DownloadsDir PidFile); [discriminate | repeat split]. }
    exact (connect_bp OI _ same_chrome same_chrome_refl same_chrome_trans HS HM w3). }
  destruct HC as (C1 & C2 & C3).
  destruct (connect_no_spawn OI (cdpPort (base iw)) w3) as (t & Et & Pt).
  split; [exact C1 | split; [exact C2 | split; [exact C3 |]]].
  exists t. split; [|exact Pt]. rewrite Et. subst w3. cbn [itrace ilog].
  rewrite <- !app_assoc. reflexivity.
Qed.

Lemma initBrowser_attaches_witness :
  hasChromeProcess (base (snd (Launch.initBrowser
     (launch_oracle (Some "/usr/bin/google-chrome") true true None)
     "/opt/agent-browse" (launch_start fresh_fs)))) = false.
Proof.
  destruct (initBrowser_attaches (launch_oracle (Some "/usr/bin/google-chrome") true true None)
              "/opt/agent-browse" (launch_start fresh_fs) (Some "/usr/bin/google-chrome")
              eq_refl (fun _ => eq_refl) eq_refl (fun _ => eq_refl)) as [H _].
  exact H.
Defined.

(** When Chrome, once spawned, never answers its CDP endpoint,
    [initBrowser()] throws [Chrome failed to start] after the initial probe
    and 60 further probes, each followed by half a second.  The spawned
    process is recorded in [chromeProcess] but [weStartedChrome] keeps its
    old value, and [stagehandInstance] stays unset.  This is stated for a
    plugin root that already holds a writable [.chrome-pid] file. *)
Theorem initBrowser_chrome_never_ready (OI : ioracle) (root : string) (iw : iworld)
  (c : option string) (pid : option Z)
  (Hsh : hasStagehand (base iw) = false)
  (Hc : forall v, i_chrome OI v = Ok c) (Ht : truthy c = true)
  (Hdown : forall v, i_bool OI (IFetch (version_url (cdpPort (base iw)))) v <> Ok true)
  (Hpid : forall v, i_pid OI v = Ok pid)
  (Hw : exists f, fs (base iw) PidFile = Some f /\ writable f = true) :
  let iw' := snd (Launch.initBrowser OI root iw) in
  fst (Launch.initBrowser OI root iw) = Throw (JError "Chrome failed to start") /\
  hasStagehand (base iw') = false /\
  hasChromeProcess (base iw') = true /\
  weStartedChrome (base iw') = weStartedChrome (base iw) /\
  exists pre, itrace iw' = (itrace iw ++ pre ++
                            failed_probes 60 (version_url (cdpPort (base iw))))%list.
Proof.
  intros iw'. subst iw'. destruct Hw as (f0 & F0 & W0).
  unfold Launch.initBrowser.
  cbv beta iota zeta delta [ibind igets findLocalChrome ithrow iret probe_existing itry
                            icallB iemit].
  rewrite Hsh, Hc, Ht. cbn [negb]. cbv beta iota zeta. cbn [base ilog].
  destruct (i_bool OI (IFetch (version_url (cdpPort (base iw)))) _) as [[|]|e] eqn:E;
    [exfalso; exact (Hdown _ E) | |];
  cbv beta iota zeta;
  unfold launch_chrome; cbv beta iota zeta delta [ibind spawn_pid imodify date_now on_base iret ithrow];
  rewrite Hpid; cbv beta iota zeta; cbn [base ilog set_base set_chrome fs];
  (destruct pid as [n|]; [destruct (Z.eqb n 0)|]; cbv beta iota zeta);
  try (unfold writeFileSync; cbv beta iota zeta;
       match goal with |- context [fs ?w PidFile] => change (fs w PidFile) with (fs (base iw) PidFile) end;
       rewrite F0, W0; cbv beta iota zeta);
  rewrite wait_chrome_fails by exact Hdown; cbv beta iota zeta;
  cbn [fst snd base ilog set_base set_chrome set_fs itrace fs hasStagehand
       hasChromeProcess weStartedChrome];
  (split; [reflexivity | split; [exact Hsh | split; [reflexivity | split; [reflexivity |]]]]);
  match goal with
  | |- exists pre, (?X ++ ?f)%list = (?a ++ _ ++ ?f)%list =>
      assert (HX : exists q, X = (a ++ q)%list) by (eexists; rewrite <- !app_assoc; reflexivity);
      destruct HX as [q Hq]; exists q; rewrite Hq, <- app_assoc; reflexivity
  end.
Qed.

Lemma initBrowser_chrome_never_ready_witness :
  fst (Launch.initBrowser (launch_oracle (Some "/usr/bin/google-chrome") false false None)
         "/opt/agent-browse" (launch_start sticky_fs))
  = Throw (JError "Chrome failed to start").
Proof.
  apply (initBrowser_chrome_never_ready
           (launch_oracle (Some "/usr/bin/google-chrome") false false None)
           "/opt/agent-browse" (launch_start sticky_fs) (Some "/usr/bin/google-chrome")
           (Some 4242%Z) eq_refl (fun _ => eq_refl) eq_refl).
  - intros v. discriminate.
  - intros v. reflexivity.
  - exists (mkFile "{}" true true false). split; reflexivity.
Defined.

(** When Stagehand's [init()] rejects, [initBrowser()] never succeeds:
    either it fails before the instance is constructed, leaving
    [stagehandInstance] unset, or it rethrows that rejection with
    [stagehandInstance] already set, so that the next call returns the
    uninitialised instance without retrying. *)
Theorem initBrowser_init_rejected (OI : ioracle) (root : string) (iw : iworld) (e : jsval)
  (Hsh : hasStagehand (base iw) = false)
  (Hinit : forall v, i_unit OI IStagehandInit v = Some e) :
  let iw' := snd (Launch.initBrowser OI root iw) in
  (fst (Launch.initBrowser OI root iw) = Throw e /\ hasStagehand (base iw') = true /\
   Launch.initBrowser OI root iw' = (Ok tt, iw')) \/
  ((exists e', fst (Launch.initBrowser OI root iw) = Throw e') /\
   hasStagehand (base iw') = false).
Proof.
  intros iw'.
  assert (H : (fst (Launch.initBrowser OI root iw) = Throw e /\ hasStagehand (base iw') = true) \/
              ((exists e', fst (Launch.initBrowser OI root iw) = Throw e') /\
               hasStagehand (base iw') = false)).
  { subst iw'. unfold Launch.initBrowser.
    cbv beta iota zeta delta [ibind igets findLocalChrome ithrow iret]. rewrite Hsh.
    destruct (i_chrome OI _) as [c|e1]; cbn [fst snd];
      [| right; split; [eexists; reflexivity | exact Hsh]].
    destruct (negb (truthy c)); cbv beta iota zeta;
      [right; split; [eexists; reflexivity | exact Hsh]|].
    match goal with |- context [probe_existing ?a ?b ?c] =>
      destruct (probe_shape a b c) as (b0 & Pb & Bb); rewrite Pb end.
    assert (Hsh2 : hasStagehand (base (snd (probe_existing OI (cdpPort (base (ilog IFindChrome iw)))
                                   (ilog IFindChrome iw)))) = false) by (rewrite Bb; exact Hsh).
    revert Hsh2.
    generalize (snd (probe_existing OI (cdpPort (base (ilog IFindChrome iw))) (ilog IFindChrome iw))).
    intros w1 Hsh1. cbv beta iota zeta.
    assert (Hc : forall w, hasStagehand (base w) = false ->
              (fst (connect_stagehand OI (cdpPort (base (ilog IFindChrome iw))) w) = Throw e /\
               hasStagehand (base (snd (connect_stagehand OI (cdpPort (base (ilog IFindChrome iw))) w)))
                 = true) \/
              ((exists e', fst (connect_stagehand OI (cdpPort (base (ilog IFindChrome iw))) w) = Throw e') /\
               hasStagehand (base (snd (connect_stagehand OI (cdpPort (base (ilog IFindChrome iw))) w)))
                 = false)).
    { intros w Hw. destruct (connect_init_rejected OI (cdpPort (base (ilog IFindChrome iw))) w e Hinit)
        as [H|[H1 H2]]; [left; exact H | right; split; [exact H1 | congruence]]. }
    destruct b0; [apply Hc; exact Hsh1|].
    match goal with |- context [launch_chrome ?a ?b ?c ?d ?w] =>
      pose proof (launch_stagehand a b c d w) as S;
      destruct (launch_chrome a b c d w) as [[[]|e2] w2] end;
      unfold same_stagehand in S; cbn [snd] in S; cbv beta iota zeta.
    - apply Hc. congruence.
    - right. split; [eexists; reflexivity | cbn [snd]; congruence]. }
  destruct H as [[H1 H2]|H]; [left | right; exact H].
  split; [exact H1 | split; [exact H2 | apply init_when_set; exact H2]].
Qed.

Lemma initBrowser_init_rejected_witness :
  fst (Launch.initBrowser (launch_oracle (Some "/usr/bin/google-chrome") true true
                             (Some (JError "Timeout waiting for page")))
         "/opt/agent-browse" (launch_start fresh_fs))
  = Throw (JError "Timeout waiting for page").
Proof.
  destruct (initBrowser_init_rejected
              (launch_oracle (Some "/usr/bin/google-chrome") true true
                 (Some (JError "Timeout waiting for page")))
              "/opt/agent-browse" (launch_start fresh_fs) (JError "Timeout waiting for page")
              eq_refl (fun _ => eq_refl)) as [[H _]|[_ H]].
  - exact H.
  - vm_compute in H. discriminate H.
Defined.

(** [initBrowser()] changes no file but the PID file and the
    downloads directory: the port file and the Chrome profile are left as
    they are, and the downloads directory is at most created, never
    replaced or removed. *)
Theorem initBrowser_files (OI : ioracle) (root : string) (iw : iworld) :
  let w' := base (snd (Launch.initBrowser OI root iw)) in
  (forall q, q <> PidFile -> q <> DownloadsDir -> fs w' q = fs (base iw) q) /\
  (fs w' DownloadsDir = fs (base iw) DownloadsDir \/
   (fs (base iw) DownloadsDir = None /\ fs w' DownloadsDir = Some new_dir)).
Proof.
  intros w'.
  assert (Rr := launch_files_refl). assert (Rt := launch_files_trans).
  assert (HS : forall w, launch_files w (set_stagehand true w))
    by (intros w; split; [intros; reflexivity | left; reflexivity]).
  assert (HM : forall w, fs w DownloadsDir = None ->
               launch_files w (set_fs (update_fs DownloadsDir (Some new_dir) (fs w)) w)).
  { intros w E. split.
    - intros q H1 H2. cbn [fs set_fs]. unfold update_fs.
      destruct (path_eq_dec DownloadsDir q); [congruence | reflexivity].
    - right. split; [exact E|]. cbn [fs set_fs]. unfold update_fs.
      destruct (path_eq_dec DownloadsDir DownloadsDir); congruence. }
  assert (H : bpre launch_files (Launch.initBrowser OI root)).
  { unfold Launch.initBrowser.
    apply bp_bind; [exact Rt | apply bp_gets; exact Rr | intros sh].
    apply bp_if; [apply bp_ret; exact Rr |].
    apply bp_bind; [exact Rt | intros iw0; apply Rr | intros c].
    apply bp_if; [apply bp_throw; exact Rr |].
    apply bp_bind; [exact Rt | apply bp_gets; exact Rr | intros cdp].
    apply bp_bind; [exact Rt | apply probe_bp; [exact Rr | exact Rt] | intros ready].
    apply bp_bind; [exact Rt | | intros _].
    - apply bp_if; [apply bp_ret; exact Rr | apply launch_files_launch].
    - exact (connect_bp OI cdp launch_files Rr Rt HS HM). }
  exact (H iw).
Qed.
